(** * LeverageSlider: the coordinate mapper and the interaction state machine

    A shallow embedding of [src/App.jsx] (component [LeverageSlider]).  The
    earlier revision of the component, with the range fixed to
    [MIN_LEVERAGE = 2] and [MAX_LEVERAGE = 10] and without the [value],
    [disabled] and callback props, is the instance [defaultProps] of the
    definitions below.

    JavaScript numbers are embedded as exact rationals extended with the
    three IEEE special values.  Finite arithmetic is exact (no rounding, no
    overflow, no signed zero); what is kept of IEEE-754 is the part the
    component can observe: division by zero and the propagation of
    [Infinity] and [NaN] through [+], [-], [*], [/], [Math.min], [Math.max]
    and [Math.round].  A double rounds every operation, so two computations
    that agree here may differ there in the last place: the statements below
    are about integers after [Math.round], about order and about end
    points, which rounding keeps, and never about [===] of two rounded
    results.

    The settle animation is seen through its two ends: [animate] starts it
    and the event [AnimationComplete] stands for a settle that ran to its
    end.  The frames in between, which rewrite [thumbX], are not events, and
    a spring whose target is not finite (the zero-width track) has no end:
    the event is meant for a finite target. *)

From Stdlib Require Import ZArith QArith Qround Lia Lqa List String Bool.
Import ListNotations.

Local Open Scope Q_scope.

(** ** JavaScript numbers *)

Module JS.

Inductive number : Type :=
| Fin (q : Q)
| PosInf
| NegInf
| NaN.

Definition ofZ (z : Z) : number := Fin (inject_Z z).

(** Sign of a finite value, as a [comparison] with zero. *)
Definition Qsign (q : Q) : comparison := (Qnum q ?= 0)%Z.

Definition sign (x : number) : comparison :=
  match x with
  | Fin q => Qsign q
  | PosInf => Gt
  | NegInf => Lt
  | NaN => Eq
  end.

Definition sign_mul (a b : comparison) : comparison :=
  match a with
  | Eq => Eq
  | Gt => b
  | Lt => CompOpp b
  end.

(** The infinity of a given sign; [Eq] stands for the indeterminate forms. *)
Definition inf_of (c : comparison) : number :=
  match c with
  | Gt => PosInf
  | Lt => NegInf
  | Eq => NaN
  end.

Definition neg (x : number) : number :=
  match x with
  | Fin q => Fin (- q)
  | PosInf => NegInf
  | NegInf => PosInf
  | NaN => NaN
  end.

(** [x + y] *)
Definition add (x y : number) : number :=
  match x, y with
  | NaN, _ | _, NaN => NaN
  | Fin a, Fin b => Fin (a + b)
  | PosInf, NegInf | NegInf, PosInf => NaN
  | PosInf, _ | _, PosInf => PosInf
  | NegInf, _ | _, NegInf => NegInf
  end.

(** [x - y] *)
Definition sub (x y : number) : number := add x (neg y).

(** [x * y]; [Infinity * 0] is [NaN]. *)
Definition mul (x y : number) : number :=
  match x, y with
  | NaN, _ | _, NaN => NaN
  | Fin a, Fin b => Fin (a * b)
  | _, _ => inf_of (sign_mul (sign x) (sign y))
  end.

(** [x / y].  A zero divisor is the positive zero (the only zero a measured
    width or a difference of integers produces): [a / 0] is the infinity of
    the sign of [a], and [0 / 0] is [NaN]. *)
Definition div (x y : number) : number :=
  match x, y with
  | NaN, _ | _, NaN => NaN
  | Fin a, Fin b => if Qeq_bool b 0 then inf_of (Qsign a) else Fin (a / b)
  | Fin _, _ => Fin 0
  | _, Fin b => if Qeq_bool b 0 then x else inf_of (sign_mul (sign x) (Qsign b))
  | _, _ => NaN
  end.

(** [x <= y]; every comparison with [NaN] is false. *)
Definition leb (x y : number) : bool :=
  match x, y with
  | NaN, _ | _, NaN => false
  | Fin a, Fin b => Qle_bool a b
  | NegInf, _ => true
  | _, PosInf => true
  | _, _ => false
  end.

(** [x === y] *)
Definition eqb (x y : number) : bool :=
  match x, y with
  | Fin a, Fin b => Qeq_bool a b
  | PosInf, PosInf | NegInf, NegInf => true
  | _, _ => false
  end.

(** [Number.isFinite(x)] *)
Definition isFinite (x : number) : bool :=
  match x with
  | Fin _ => true
  | _ => false
  end.

(** [Math.max(x, y)] *)
Definition Math_max (x y : number) : number :=
  match x, y with
  | NaN, _ | _, NaN => NaN
  | _, _ => if leb x y then y else x
  end.

(** [Math.min(x, y)] *)
Definition Math_min (x y : number) : number :=
  match x, y with
  | NaN, _ | _, NaN => NaN
  | _, _ => if leb x y then x else y
  end.

(** [Math.round(x)]: the nearest integer, a tie going towards [+Infinity],
    that is [floor (x + 1/2)]. *)
Definition Math_round (x : number) : number :=
  match x with
  | Fin q => ofZ (Qfloor (q + (1 # 2)))
  | _ => x
  end.

End JS.

Import JS.

(** ** The component *)

Module Slider.

(** The props of [LeverageSlider] the engine reads.  A callback prop is
    recorded by whether the owner supplied it ([onChange?.(v)] is void when
    it did not); its invocations are logged in the widget, see [Call]. *)
Record Props : Type := {
  value : option Z;
  defaultValue : option Z;
  onChange : bool;
  onDragStart : bool;
  onDragEnd : bool;
  min : Z;
  max : Z;
  disabled : bool
}.

Definition DEFAULT_MIN : Z := 2.
Definition DEFAULT_MAX : Z := 10.

(** What [getBoundingClientRect()] reports for the track element. *)
Record DOMRect : Type := {
  rect_left : Q;
  rect_width : Q
}.

Record Bounds : Type := {
  left : number;
  width : number
}.

(** [function clamp(val, min, max)] *)
Definition clamp (val lo hi : number) : number :=
  Math_min (Math_max val lo) hi.

Section Mapper.

Variable p : Props.
(** [trackRef.current]: [None] while no element is attached. *)
Variable trackRef : option DOMRect.

Definition steps : number := sub (ofZ (max p)) (ofZ (min p)).

Definition getTrackBounds : Bounds :=
  match trackRef with
  | None => {| left := Fin 0; width := Fin 400 |}
  | Some rect => {| left := Fin (rect_left rect); width := Fin (rect_width rect) |}
  end.

Definition leverageToX (val : number) : number :=
  let width := width getTrackBounds in
  mul (div (sub val (ofZ (min p))) steps) width.

Definition xToLeverage (px : number) : number :=
  let width := width getTrackBounds in
  let ratio := div px width in
  add (ofZ (min p)) (mul ratio steps).

Definition snapToNearest (continuousVal : number) : number :=
  clamp (Math_round continuousVal) (ofZ (min p)) (ofZ (max p)).

End Mapper.

(** *** Widget state *)

(** An invocation of a callback prop. *)
Inductive Call : Type :=
| OnChange (newValue : number)
| OnDragStart
| OnDragEnd (finalValue : number).

(** The [onComplete] closures handed to [animate].  Each closes over the
    props of the render that created it (through [updateValue] and
    [onDragEnd]) and over the value it will commit. *)
Inductive Completion : Type :=
| DragSettle (p : Props) (snapped : number)
| Commit (p : Props) (val : number).

Record Widget : Type := {
  props : Props;
  trackRef : option DOMRect;
  internalValue : number;
  isDragging : bool;
  isHovering : bool;
  displayValue : number;
  (** the motion value [thumbX] *)
  thumbX : number;
  (** the animation of [thumbX] in flight: its target and its [onComplete] *)
  animation : option (number * Completion);
  (** callback invocations so far, oldest first *)
  calls : list Call
}.

Definition setProps (p : Props) (w : Widget) : Widget :=
  {| props := p; trackRef := trackRef w; internalValue := internalValue w;
     isDragging := isDragging w; isHovering := isHovering w;
     displayValue := displayValue w; thumbX := thumbX w;
     animation := animation w; calls := calls w |}.

Definition setTrackRef (r : option DOMRect) (w : Widget) : Widget :=
  {| props := props w; trackRef := r; internalValue := internalValue w;
     isDragging := isDragging w; isHovering := isHovering w;
     displayValue := displayValue w; thumbX := thumbX w;
     animation := animation w; calls := calls w |}.

Definition setInternalValue (v : number) (w : Widget) : Widget :=
  {| props := props w; trackRef := trackRef w; internalValue := v;
     isDragging := isDragging w; isHovering := isHovering w;
     displayValue := displayValue w; thumbX := thumbX w;
     animation := animation w; calls := calls w |}.

Definition setIsDragging (b : bool) (w : Widget) : Widget :=
  {| props := props w; trackRef := trackRef w; internalValue := internalValue w;
     isDragging := b; isHovering := isHovering w;
     displayValue := displayValue w; thumbX := thumbX w;
     animation := animation w; calls := calls w |}.

Definition setIsHovering (b : bool) (w : Widget) : Widget :=
  {| props := props w; trackRef := trackRef w; internalValue := internalValue w;
     isDragging := isDragging w; isHovering := b;
     displayValue := displayValue w; thumbX := thumbX w;
     animation := animation w; calls := calls w |}.

Definition setDisplayValue (v : number) (w : Widget) : Widget :=
  {| props := props w; trackRef := trackRef w; internalValue := internalValue w;
     isDragging := isDragging w; isHovering := isHovering w;
     displayValue := v; thumbX := thumbX w;
     animation := animation w; calls := calls w |}.

(** [thumbX.set(x)]: writes the position; an animation in flight is not
    stopped by it. *)
Definition thumbX_set (x : number) (w : Widget) : Widget :=
  {| props := props w; trackRef := trackRef w; internalValue := internalValue w;
     isDragging := isDragging w; isHovering := isHovering w;
     displayValue := displayValue w; thumbX := x;
     animation := animation w; calls := calls w |}.

Definition setAnimation (a : option (number * Completion)) (w : Widget) : Widget :=
  {| props := props w; trackRef := trackRef w; internalValue := internalValue w;
     isDragging := isDragging w; isHovering := isHovering w;
     displayValue := displayValue w; thumbX := thumbX w;
     animation := a; calls := calls w |}.

(** [cb?.(...)]: the invocation is logged when the prop was supplied. *)
Definition invoke (supplied : bool) (c : Call) (w : Widget) : Widget :=
  if supplied then
    {| props := props w; trackRef := trackRef w; internalValue := internalValue w;
       isDragging := isDragging w; isHovering := isHovering w;
       displayValue := displayValue w; thumbX := thumbX w;
       animation := animation w; calls := calls w ++ [c] |}
  else w.

(** [currentValue]: the committed value, the owner's in controlled mode. *)
Definition currentValue (w : Widget) : number :=
  let p := props w in
  match value p with
  | Some v => clamp (ofZ v) (ofZ (min p)) (ofZ (max p))
  | None => internalValue w
  end.

Definition getInitialValue (p : Props) : number :=
  match value p with
  | Some v => clamp (ofZ v) (ofZ (min p)) (ofZ (max p))
  | None =>
    match defaultValue p with
    | Some d => clamp (ofZ d) (ofZ (min p)) (ofZ (max p))
    | None => Math_round (div (add (ofZ (min p)) (ofZ (max p))) (ofZ 2))
    end
  end.

(** [updateValue], as closed over the props [p] of its render. *)
Definition updateValue (p : Props) (newValue : number) (w : Widget) : Widget :=
  let w := match value p with
           | None => setInternalValue newValue w
           | Some _ => w
           end in
  invoke (onChange p) (OnChange newValue) w.

(** [animateThumbTo(targetX, onComplete)]: [animate] on a motion value
    replaces the animation in flight, whose [onComplete] is dropped. *)
Definition animateThumbTo (targetX : number) (onComplete : Completion)
    (w : Widget) : Widget :=
  setAnimation (Some (targetX, onComplete)) w.

(** *** Effects *)

(** The effect syncing [displayValue] with a controlled [value]. *)
Definition syncControlled (w : Widget) : Widget :=
  let p := props w in
  match value p with
  | Some v =>
    if negb (isDragging w) then
      let clampedValue := clamp (ofZ v) (ofZ (min p)) (ofZ (max p)) in
      let w := setDisplayValue clampedValue w in
      thumbX_set (leverageToX p (trackRef w) clampedValue) w
    else w
  | None => w
  end.

Definition handleResize (w : Widget) : Widget :=
  if negb (isDragging w) then
    thumbX_set (leverageToX (props w) (trackRef w) (currentValue w)) w
  else w.

(** *** Pointer handlers *)

Definition handlePointerDown (clientX : Q) (w : Widget) : Widget :=
  let p := props w in
  if disabled p then w else
  let b := getTrackBounds (trackRef w) in
  let relativeX := clamp (sub (Fin clientX) (left b)) (Fin 0) (width b) in
  let w := setIsDragging true w in
  let w := invoke (onDragStart p) OnDragStart w in
  let w := thumbX_set relativeX w in
  let continuous := xToLeverage p (trackRef w) relativeX in
  setDisplayValue (snapToNearest p continuous) w.

Definition handlePointerMove (clientX : Q) (w : Widget) : Widget :=
  let p := props w in
  if negb (isDragging w) || disabled p then w else
  let b := getTrackBounds (trackRef w) in
  let relativeX := clamp (sub (Fin clientX) (left b)) (Fin 0) (width b) in
  let w := thumbX_set relativeX w in
  let continuous := xToLeverage p (trackRef w) relativeX in
  let snapped := snapToNearest p continuous in
  setDisplayValue snapped w.

Definition handlePointerUp (w : Widget) : Widget :=
  let p := props w in
  if negb (isDragging w) then w else
  let currentX := thumbX w in
  let continuous := xToLeverage p (trackRef w) currentX in
  let snapped := snapToNearest p continuous in
  let targetX := leverageToX p (trackRef w) snapped in
  animateThumbTo targetX (DragSettle p snapped) w.

(** The [window] listener for [pointerup], registered by an effect only
    while [isDragging]. *)
Definition globalPointerUp (w : Widget) : Widget :=
  if isDragging w then handlePointerUp w else w.

Definition handleLabelTap (val : Z) (w : Widget) : Widget :=
  let p := props w in
  if disabled p then w else
  let targetX := leverageToX p (trackRef w) (ofZ val) in
  let w := setDisplayValue (ofZ val) w in
  animateThumbTo targetX (Commit p (ofZ val)) w.

Definition handleKeyDown (key : string) (w : Widget) : Widget :=
  let p := props w in
  if disabled p then w else
  let newVal :=
    if (key =? "ArrowRight")%string || (key =? "ArrowUp")%string then
      Some (Math_min (add (currentValue w) (ofZ 1)) (ofZ (max p)))
    else if (key =? "ArrowLeft")%string || (key =? "ArrowDown")%string then
      Some (Math_max (sub (currentValue w) (ofZ 1)) (ofZ (min p)))
    else if (key =? "Home")%string then
      Some (ofZ (min p))
    else if (key =? "End")%string then
      Some (ofZ (max p))
    else
      None in
  match newVal with
  | None => w
  | Some newVal =>
    let w := setDisplayValue newVal w in
    let targetX := leverageToX p (trackRef w) newVal in
    animateThumbTo targetX (Commit p newVal) w
  end.

Definition handleMouseEnter (w : Widget) : Widget :=
  if negb (disabled (props w)) then setIsHovering true w else w.

Definition handleMouseLeave (w : Widget) : Widget :=
  if negb (isDragging w) then setIsHovering false w else w.

(** *** Animation completion *)

Definition onComplete (k : Completion) (w : Widget) : Widget :=
  match k with
  | DragSettle p snapped =>
    let w := updateValue p snapped w in
    let w := setDisplayValue snapped w in
    let w := setIsDragging false w in
    invoke (onDragEnd p) (OnDragEnd snapped) w
  | Commit p val => updateValue p val w
  end.

(** The animation in flight reaches its target and runs its [onComplete].
    This is what a settle that runs to its end does; one that is replaced
    before, or whose target is not finite, never gets here. *)
Definition completeAnimation (w : Widget) : Widget :=
  match animation w with
  | Some (targetX, k) =>
    onComplete k (setAnimation None (thumbX_set targetX w))
  | None => w
  end.

(** *** The event loop *)

Inductive Event : Type :=
| PointerDown (clientX : Q)
| PointerMove (clientX : Q)
| PointerUp
| GlobalPointerUp
| LabelTap (val : Z)
| KeyDown (key : string)
| MouseEnter
| MouseLeave
| Resize
| AnimationComplete
| Render (p : Props)
| Layout (rect : option DOMRect).

Definition dispatch (e : Event) (w : Widget) : Widget :=
  match e with
  | PointerDown clientX => handlePointerDown clientX w
  | PointerMove clientX => handlePointerMove clientX w
  | PointerUp => handlePointerUp w
  | GlobalPointerUp => globalPointerUp w
  | LabelTap val => handleLabelTap val w
  | KeyDown key => handleKeyDown key w
  | MouseEnter => handleMouseEnter w
  | MouseLeave => handleMouseLeave w
  | Resize => handleResize w
  | AnimationComplete => completeAnimation w
  | Render p => setProps p w
  | Layout rect => setTrackRef rect w
  end.

Definition option_Z_eqb (a b : option Z) : bool :=
  match a, b with
  | Some x, Some y => (x =? y)%Z
  | None, None => true
  | _, _ => false
  end.

(** The dependency list [[value, min, max, isDragging]] of the sync effect
    is unchanged between two renders. *)
Definition sameDeps (w w' : Widget) : bool :=
  option_Z_eqb (value (props w)) (value (props w'))
  && (min (props w) =? min (props w'))%Z
  && (max (props w) =? max (props w'))%Z
  && Bool.eqb (isDragging w) (isDragging w').

(** One turn of the event loop: the handler runs, the component renders
    again, and the sync effect runs if one of its dependencies changed. *)
Definition step (e : Event) (w : Widget) : Widget :=
  let w' := dispatch e w in
  if sameDeps w w' then w' else syncControlled w'.

Definition run (es : list Event) (w : Widget) : Widget :=
  fold_left (fun w e => step e w) es w.

(** Mounting: the initial state, then the effects of the first render. *)
Definition mount (p : Props) (rect : option DOMRect) : Widget :=
  let initial := getInitialValue p in
  let current := match value p with
                 | Some v => clamp (ofZ v) (ofZ (min p)) (ofZ (max p))
                 | None => initial
                 end in
  let w := {| props := p; trackRef := rect; internalValue := initial;
              isDragging := false; isHovering := false;
              displayValue := current; thumbX := ofZ 0;
              animation := None; calls := [] |} in
  let w := syncControlled w in
  thumbX_set (leverageToX p rect (currentValue w)) w.

(** What an [onComplete] closure commits, and under which props. *)
Definition committed (k : Completion) : Props * number :=
  match k with
  | DragSettle p snapped => (p, snapped)
  | Commit p val => (p, val)
  end.

(** *** Configurations *)

(** The props of [<LeverageSlider />]: every default of the parameter list,
    no callback. *)
Definition defaultProps : Props :=
  {| value := None; defaultValue := None; onChange := false;
     onDragStart := false; onDragEnd := false;
     min := DEFAULT_MIN; max := DEFAULT_MAX; disabled := false |}.

(** The props the demo page passes:
    [<LeverageSlider value={leverage} onChange={setLeverage} />]. *)
Definition appProps (leverage : Z) : Props :=
  {| value := Some leverage; defaultValue := None; onChange := true;
     onDragStart := false; onDragEnd := false;
     min := DEFAULT_MIN; max := DEFAULT_MAX; disabled := false |}.

(** An uncontrolled slider starting at [start] with all three callbacks. *)
Definition observedProps (start : Z) (off : bool) : Props :=
  {| value := None; defaultValue := Some start; onChange := true;
     onDragStart := true; onDragEnd := true;
     min := DEFAULT_MIN; max := DEFAULT_MAX; disabled := off |}.

(** A track laid out at the left edge with the given width. *)
Definition track (w : Q) : option DOMRect :=
  Some {| rect_left := 0; rect_width := w |}.

(** The input events of the user: pointer, label tap and keyboard. *)
Definition isInput (e : Event) : bool :=
  match e with
  | PointerDown _ | PointerMove _ | PointerUp | GlobalPointerUp
  | LabelTap _ | KeyDown _ => true
  | _ => false
  end.

(** The values [onChange] was invoked with. *)
Fixpoint changes (cs : list Call) : list number :=
  match cs with
  | [] => []
  | OnChange v :: cs => v :: changes cs
  | _ :: cs => changes cs
  end.

(** *** Utilities and rendering *)

(** [function lerp(a, b, t)] *)
Definition lerp (a b t : number) : number :=
  add a (mul (sub b a) t).

Definition MAX_BAR_HEIGHT : Z := 90.
Definition SPACER_LINES_PER_SEGMENT : Z := 3.

(** [tickCount = steps + 1], on the integer props. *)
Definition tickCount (p : Props) : Z := (max p - min p + 1)%Z.

(** The indices [0 .. n - 1] that [Array.from({ length: n }, (_, i) => ...)]
    maps over; none when [n] is not positive. *)
Definition indices (n : Z) : list Z :=
  map Z.of_nat (seq 0 (Z.to_nat n)).

(** The object [heights] of [generateBarHeights], keyed by the tick value:
    a write [heights[val] = h] puts a binding in front, a read takes the
    first binding of the key, [None] for [undefined]. *)
Definition Heights : Type := list (Z * number).

Fixpoint lookup (val : Z) (heights : Heights) : option number :=
  match heights with
  | [] => None
  | (k, h) :: rest => if (k =? val)%Z then Some h else lookup val rest
  end.

(** The body of the loop at index [i]: [0.12 + (i / steps) * 0.88]. *)
Definition barHeightAt (p : Props) (i : Z) : number :=
  let t := div (ofZ i) (steps p) in
  add (Fin (12 # 100)) (mul t (Fin (88 # 100))).

(** [for (let i = 0; i <= steps; i++)], the iterations that remain counted
    by [n]. *)
Fixpoint generateBarHeights_from (p : Props) (n : nat) (i : Z)
    (heights : Heights) : Heights :=
  match n with
  | O => heights
  | S n' =>
    let val := (min p + i)%Z in
    generateBarHeights_from p n' (i + 1)%Z ((val, barHeightAt p i) :: heights)
  end.

(** [function generateBarHeights(min, max)] *)
Definition generateBarHeights (p : Props) : Heights :=
  generateBarHeights_from p (Z.to_nat (max p - min p + 1)) 0 [].

(** The values [min + i] of the bars, baseline ticks and axis labels. *)
Definition tickValues (p : Props) : list Z :=
  map (fun i => (min p + i)%Z) (indices (tickCount p)).

(** [xPercent = (i / steps) * 100] of tick [i]. *)
Definition xPercent (p : Props) (i : Z) : number :=
  mul (div (ofZ i) (steps p)) (ofZ 100).

(** [isSelected = val <= displayValue] of a bar or baseline tick. *)
Definition isSelected (w : Widget) (val : Z) : bool :=
  leb (ofZ val) (displayValue w).

(** [isActive = val === displayValue] of an axis label. *)
Definition isActive (w : Widget) (val : Z) : bool :=
  eqb (ofZ val) (displayValue w).

(** [t = (lineIndex + 1) / (SPACER_LINES_PER_SEGMENT + 1)] *)
Definition spacerT (lineIndex : Z) : number :=
  div (ofZ (lineIndex + 1)) (ofZ (SPACER_LINES_PER_SEGMENT + 1)).

(** [isSelected = positionValue <= displayValue] of a spacer line, with
    [positionValue = startVal + t] and [startVal = min + segIndex]. *)
Definition spacerSelected (w : Widget) (segIndex lineIndex : Z) : bool :=
  let startVal := (min (props w) + segIndex)%Z in
  let positionValue := add (ofZ startVal) (spacerT lineIndex) in
  leb positionValue (displayValue w).

(** [heightFraction = lerp(baseHeight, nextHeight, t)] of a spacer line;
    [None] when one of the two bars has no height. *)
Definition spacerHeightFraction (p : Props) (segIndex lineIndex : Z)
    : option number :=
  let barHeights := generateBarHeights p in
  let startVal := (min p + segIndex)%Z in
  match lookup startVal barHeights, lookup (startVal + 1) barHeights with
  | Some baseHeight, Some nextHeight =>
    Some (lerp baseHeight nextHeight (spacerT lineIndex))
  | _, _ => None
  end.

(** [showHandle = isDragging || isHovering] *)
Definition showHandle (w : Widget) : bool :=
  isDragging w || isHovering w.

(** *** Vocabulary of the statements *)

(** [x] is an integer of the range [lo..hi]. *)
Definition isIntegerIn (lo hi : Z) (x : number) : bool :=
  match x with
  | Fin q =>
    Qeq_bool q (inject_Z (Qfloor q))
    && (lo <=? Qfloor q)%Z && (Qfloor q <=? hi)%Z
  | _ => false
  end.

(** The argument a callback was invoked with, if it takes one. *)
Definition callArgument (c : Call) : option number :=
  match c with
  | OnChange v => Some v
  | OnDragStart => None
  | OnDragEnd v => Some v
  end.

(** The measured width of the track is positive (an unmeasured track has
    the fallback width). *)
Definition positiveWidth (rect : option DOMRect) : Prop :=
  match rect with
  | Some r => 0 < rect_width r
  | None => True
  end.

(** Events a slider of the fixed range [lo..hi] receives: a re-render keeps
    the range, a layout keeps the track measurable, and a label that is
    tapped is one of the labels rendered. *)
Definition admissible (lo hi : Z) (e : Event) : Prop :=
  match e with
  | Render p => min p = lo /\ max p = hi
  | Layout rect => positiveWidth rect
  | LabelTap val => (lo <= val <= hi)%Z
  | _ => True
  end.

(** Every number the widget holds is sound for the range [lo..hi]: the
    committed and displayed values, the value a settle in flight will
    commit and every argument handed to a callback are integers of the
    range, and the thumb and its target are finite. *)
Definition wellFormed (lo hi : Z) (w : Widget) : Prop :=
  min (props w) = lo /\ max (props w) = hi
  /\ positiveWidth (trackRef w)
  /\ isIntegerIn lo hi (internalValue w) = true
  /\ isIntegerIn lo hi (displayValue w) = true
  /\ isFinite (thumbX w) = true
  /\ match animation w with
     | Some (targetX, k) =>
       isFinite targetX = true /\ isIntegerIn lo hi (snd (committed k)) = true
     | None => True
     end
  /\ Forall (fun c => match callArgument c with
                      | Some v => isIntegerIn lo hi v = true
                      | None => True
                      end) (calls w).

End Slider.

Import Slider.

(** ** Arithmetic of the embedded numbers *)

Section NumberFacts.

Lemma leb_ofZ (a b : Z) : leb (ofZ a) (ofZ b) = (a <=? b)%Z.
Proof.
  unfold leb, ofZ, Qle_bool; simpl. now rewrite !Z.mul_1_r.
Qed.

Lemma Math_max_ofZ (a b : Z) : Math_max (ofZ a) (ofZ b) = ofZ (Z.max a b).
Proof.
  pose proof (leb_ofZ a b) as H. unfold Math_max, ofZ in *.
  cbv beta iota. rewrite H.
  destruct (Z.leb_spec a b); [rewrite Z.max_r | rewrite Z.max_l]; auto; lia.
Qed.

Lemma Math_min_ofZ (a b : Z) : Math_min (ofZ a) (ofZ b) = ofZ (Z.min a b).
Proof.
  pose proof (leb_ofZ a b) as H. unfold Math_min, ofZ in *.
  cbv beta iota. rewrite H.
  destruct (Z.leb_spec a b); [rewrite Z.min_l | rewrite Z.min_r]; auto; lia.
Qed.

Lemma clamp_ofZ (v lo hi : Z) :
  clamp (ofZ v) (ofZ lo) (ofZ hi) = ofZ (Z.min (Z.max v lo) hi).
Proof.
  unfold clamp. now rewrite Math_max_ofZ, Math_min_ofZ.
Qed.

Lemma Qfloor_half (z : Z) : Qfloor (inject_Z z + (1 # 2)) = z.
Proof.
  unfold Qfloor, Qplus, inject_Z; simpl.
  symmetry. apply (Z.div_unique _ _ _ 1); lia.
Qed.

Lemma div_Fin (a b : Q) : ~ b == 0 -> div (Fin a) (Fin b) = Fin (a / b).
Proof.
  intros Hb. unfold div.
  destruct (Qeq_bool b 0) eqn:E; [|reflexivity].
  apply Qeq_bool_iff in E. contradiction.
Qed.

End NumberFacts.

(** ** The coordinate mapper *)

Section MapperFacts.

Variable p : Props.
Variable ref : option DOMRect.

Lemma steps_Fin : steps p = Fin (inject_Z (max p) + - inject_Z (min p)).
Proof. reflexivity. Qed.

Lemma steps_nonzero :
  (min p < max p)%Z -> ~ inject_Z (max p) + - inject_Z (min p) == 0.
Proof.
  intros Hlt E. unfold Qeq in E; simpl in E. lia.
Qed.

Lemma steps_positive :
  (min p < max p)%Z -> 0 < inject_Z (max p) + - inject_Z (min p).
Proof.
  intros Hlt. rewrite <- inject_Z_opp, <- inject_Z_plus.
  change 0 with (inject_Z 0). rewrite <- Zlt_Qlt. lia.
Qed.

(** With a finite, non-zero width both directions are ordinary rational
    arithmetic. *)
Lemma leverageToX_Fin (w v : Q) :
  width (getTrackBounds ref) = Fin w -> (min p < max p)%Z ->
  leverageToX p ref (Fin v) =
  Fin ((v + - inject_Z (min p)) / (inject_Z (max p) + - inject_Z (min p)) * w).
Proof.
  intros Hw Hlt. unfold leverageToX. rewrite Hw, steps_Fin.
  unfold sub, ofZ, neg, add. rewrite div_Fin by now apply steps_nonzero.
  reflexivity.
Qed.

Lemma xToLeverage_Fin (w x : Q) :
  width (getTrackBounds ref) = Fin w -> ~ w == 0 ->
  xToLeverage p ref (Fin x) =
  Fin (inject_Z (min p) + x / w * (inject_Z (max p) + - inject_Z (min p))).
Proof.
  intros Hw Hnz. unfold xToLeverage. rewrite Hw, steps_Fin.
  rewrite div_Fin by assumption. reflexivity.
Qed.

Lemma snapToNearest_Fin (x : Q) :
  snapToNearest p (Fin x) =
  ofZ (Z.min (Z.max (Qfloor (x + (1 # 2))) (min p)) (max p)).
Proof.
  unfold snapToNearest, Math_round. apply clamp_ofZ.
Qed.

End MapperFacts.

(** C1. Round-trip of the mapper: with any positive track width [w] (the
    fallback width of an unmeasured track included), every integer [v] of
    the range [min..max], [min < max], satisfies
    [snapToNearest (xToLeverage (leverageToX v)) === v]. *)
Theorem mapper_roundtrip (p : Props) (ref : option DOMRect) (w : Q) (v : Z) :
  width (getTrackBounds ref) = Fin w -> 0 < w ->
  (min p < max p)%Z -> (min p <= v <= max p)%Z ->
  snapToNearest p (xToLeverage p ref (leverageToX p ref (ofZ v))) = ofZ v
  /\ eqb (snapToNearest p (xToLeverage p ref (leverageToX p ref (ofZ v)))) (ofZ v)
     = true.
Proof.
  intros Hw Hpos Hlt Hv.
  assert (Hnz : ~ w == 0) by (intros E; rewrite E in Hpos; discriminate).
  assert (E : snapToNearest p (xToLeverage p ref (leverageToX p ref (ofZ v)))
              = ofZ v).
  { unfold ofZ at 1.
    rewrite (leverageToX_Fin p ref w) by assumption.
    rewrite (xToLeverage_Fin p ref w) by assumption.
    rewrite snapToNearest_Fin.
    pose proof (steps_nonzero p Hlt) as Hs.
    match goal with
    | |- context [Qfloor ?q] =>
      assert (Hq : q == inject_Z v + (1 # 2)) by (field; split; assumption)
    end.
    rewrite Hq, Qfloor_half. f_equal. lia. }
  split; [exact E|].
  rewrite E. unfold eqb, ofZ. apply Qeq_bool_iff. reflexivity.
Qed.

(** The round trip at the fallback width: track unmeasured, range 2..10,
    value 7. *)
Lemma mapper_roundtrip_witness :
  snapToNearest defaultProps
    (xToLeverage defaultProps None (leverageToX defaultProps None (ofZ 7)))
  = ofZ 7
  /\ eqb (snapToNearest defaultProps
            (xToLeverage defaultProps None (leverageToX defaultProps None (ofZ 7))))
         (ofZ 7) = true.
Proof.
  apply (mapper_roundtrip defaultProps None 400 7).
  - reflexivity.
  - reflexivity.
  - reflexivity.
  - split; discriminate.
Defined.

(** C8. Clamp closure of the quantization: for integers [min < max] and
    every real [x], [snapToNearest x] is [clamp (Math.round x) min max] and
    is an integer of the range [min..max]. *)
Theorem snap_closure (p : Props) (x : Q) :
  (min p < max p)%Z ->
  snapToNearest p (Fin x)
  = clamp (Math_round (Fin x)) (ofZ (min p)) (ofZ (max p))
  /\ exists z : Z,
       snapToNearest p (Fin x) = ofZ z /\ (min p <= z <= max p)%Z.
Proof.
  intros Hlt. split; [reflexivity|].
  rewrite snapToNearest_Fin. eexists; split; [reflexivity|]. lia.
Qed.

(** Range 2..10: 6.5 rounds up to 7. *)
Lemma snap_closure_witness :
  snapToNearest defaultProps (Fin (13 # 2))
  = clamp (Math_round (Fin (13 # 2))) (ofZ 2) (ofZ 10)
  /\ exists z : Z,
       snapToNearest defaultProps (Fin (13 # 2)) = ofZ z /\ (2 <= z <= 10)%Z.
Proof.
  apply (snap_closure defaultProps (13 # 2)). reflexivity.
Defined.

(** Ties go up, out-of-range values are clamped, [NaN] is not. *)
Example snap_half_up :
  snapToNearest defaultProps (Fin (13 # 2)) = ofZ 7
  /\ snapToNearest defaultProps (Fin (-5 # 2)) = ofZ 2
  /\ snapToNearest defaultProps (Fin (-7 # 2)) = ofZ 2
  /\ snapToNearest defaultProps (Fin 57) = ofZ 10
  /\ snapToNearest defaultProps PosInf = ofZ 10
  /\ snapToNearest defaultProps NaN = NaN.
Proof. repeat split. Qed.

(** Each direction preserves [<=]: [leverageToX] for a width that is not
    negative, [xToLeverage] for a width that is positive. *)
Lemma leverageToX_monotone (p : Props) (ref : option DOMRect) (w v1 v2 : Q) :
  width (getTrackBounds ref) = Fin w -> 0 <= w -> (min p < max p)%Z ->
  v1 <= v2 ->
  leb (leverageToX p ref (Fin v1)) (leverageToX p ref (Fin v2)) = true.
Proof.
  intros Hw Hpos Hlt Hv.
  rewrite !(leverageToX_Fin p ref w) by assumption.
  unfold leb. apply Qle_bool_iff.
  pose proof (steps_positive p Hlt) as Hs.
  apply Qmult_le_compat_r; [|assumption].
  unfold Qdiv. apply Qmult_le_compat_r.
  - apply Qplus_le_compat; [assumption | apply Qle_refl].
  - apply Qlt_le_weak, Qinv_lt_0_compat, Hs.
Qed.

Lemma xToLeverage_monotone (p : Props) (ref : option DOMRect) (w x1 x2 : Q) :
  width (getTrackBounds ref) = Fin w -> 0 < w -> (min p < max p)%Z ->
  x1 <= x2 ->
  leb (xToLeverage p ref (Fin x1)) (xToLeverage p ref (Fin x2)) = true.
Proof.
  intros Hw Hpos Hlt Hx.
  assert (Hnz : ~ w == 0) by (intros E; rewrite E in Hpos; discriminate).
  rewrite !(xToLeverage_Fin p ref w) by assumption.
  unfold leb. apply Qle_bool_iff.
  pose proof (steps_positive p Hlt) as Hs.
  apply Qplus_le_compat; [apply Qle_refl|].
  apply Qmult_le_compat_r; [|apply Qlt_le_weak, Hs].
  unfold Qdiv. apply Qmult_le_compat_r; [assumption|].
  apply Qlt_le_weak, Qinv_lt_0_compat, Hpos.
Qed.

(** C9, as the code has it.  For a fixed track width [w] and [a <= b]:
    [leverageToX a <= leverageToX b] when [w] is not negative, and
    [xToLeverage a <= xToLeverage b] when [w] is positive. *)
Theorem mapper_monotone (p : Props) (ref : option DOMRect) (w a b : Q) :
  width (getTrackBounds ref) = Fin w -> (min p < max p)%Z -> a <= b ->
  (0 <= w ->
   leb (leverageToX p ref (Fin a)) (leverageToX p ref (Fin b)) = true)
  /\ (0 < w ->
      leb (xToLeverage p ref (Fin a)) (xToLeverage p ref (Fin b)) = true).
Proof.
  intros Hw Hlt Hab. split; intros Hpos.
  - now apply (leverageToX_monotone p ref w).
  - now apply (xToLeverage_monotone p ref w).
Qed.

(** The default range on a 320 pixel track. *)
Lemma mapper_monotone_witness :
  leb (leverageToX defaultProps (track 320) (Fin 3))
      (leverageToX defaultProps (track 320) (Fin (7 # 2))) = true
  /\ leb (xToLeverage defaultProps (track 320) (Fin 3))
         (xToLeverage defaultProps (track 320) (Fin (7 # 2))) = true.
Proof.
  destruct (mapper_monotone defaultProps (track 320) 320 3 (7 # 2)) as [Hv Hp].
  - reflexivity.
  - reflexivity.
  - discriminate.
  - split; [apply Hv; discriminate | apply Hp; reflexivity].
Defined.

(** C9 as stated fails at the width zero, which is not negative: 0 <= 1,
    but [xToLeverage] maps 0 to [NaN] and 1 to [Infinity], and
    [NaN <= Infinity] is false. *)
Lemma zero_width_not_monotone :
  width (getTrackBounds (track 0)) = Fin 0
  /\ leb (Fin 0) (Fin 1) = true
  /\ xToLeverage defaultProps (track 0) (Fin 0) = NaN
  /\ xToLeverage defaultProps (track 0) (Fin 1) = PosInf
  /\ leb (xToLeverage defaultProps (track 0) (Fin 0))
         (xToLeverage defaultProps (track 0) (Fin 1)) = false.
Proof. repeat split. Qed.

(** ** Geometry fallback *)

(** C3, as the code has it.  An unmeasured track (no element attached) is
    mapped with the fallback width 400, and there both directions are finite
    on every finite argument.  On an attached track [leverageToX] is finite
    whatever the measured width, zero included, since it never divides by
    the width; [xToLeverage] is finite when the measured width is not
    zero. *)
Theorem geometry_fallback (p : Props) (x : Q) :
  (min p < max p)%Z ->
  width (getTrackBounds None) = Fin 400
  /\ isFinite (leverageToX p None (Fin x)) = true
  /\ isFinite (xToLeverage p None (Fin x)) = true
  /\ (forall rect, isFinite (leverageToX p (Some rect) (Fin x)) = true)
  /\ (forall rect, ~ rect_width rect == 0 ->
                   isFinite (xToLeverage p (Some rect) (Fin x)) = true).
Proof.
  intros Hlt. split; [reflexivity|].
  split; [|split; [|split]].
  - now rewrite (leverageToX_Fin p None 400).
  - reflexivity.
  - intros rect. now rewrite (leverageToX_Fin p (Some rect) (rect_width rect)).
  - intros rect Hnz.
    now rewrite (xToLeverage_Fin p (Some rect) (rect_width rect)).
Qed.

(** The default range at pixel 123.5, unmeasured and on a 320 pixel track. *)
Lemma geometry_fallback_witness :
  width (getTrackBounds None) = Fin 400
  /\ isFinite (leverageToX defaultProps None (Fin (247 # 2))) = true
  /\ isFinite (xToLeverage defaultProps None (Fin (247 # 2))) = true
  /\ isFinite (leverageToX defaultProps (track 0) (Fin (247 # 2))) = true
  /\ isFinite (xToLeverage defaultProps (track 320) (Fin (247 # 2))) = true.
Proof.
  destruct (geometry_fallback defaultProps (247 # 2))
    as (Hw & Hv & Hp & Hrect & Hnz); [reflexivity|].
  split; [exact Hw|]. split; [exact Hv|]. split; [exact Hp|].
  split; [apply Hrect | apply Hnz; discriminate].
Defined.

(** C3 as stated fails on a track that is attached and measures zero wide:
    no fallback applies, [xToLeverage] divides by zero, the pixel 0 maps to
    [NaN] and a positive pixel to [Infinity], and a pointer-down there
    displays [NaN]. *)
Lemma zero_width_track_unsafe :
  width (getTrackBounds (track 0)) = Fin 0
  /\ xToLeverage defaultProps (track 0) (Fin 0) = NaN
  /\ xToLeverage defaultProps (track 0) (Fin 1) = PosInf
  /\ snapToNearest defaultProps (xToLeverage defaultProps (track 0) (Fin 0)) = NaN
  /\ displayValue (step (PointerDown 0) (mount defaultProps (track 0))) = NaN.
Proof. repeat split. Qed.

(** ** The interaction state machine *)

Section StepFacts.

Lemma option_Z_eqb_refl (a : option Z) : option_Z_eqb a a = true.
Proof. destruct a; simpl; [apply Z.eqb_refl | reflexivity]. Qed.

(** A handler that leaves the props and the dragging flag alone does not
    re-run the sync effect. *)
Lemma sameDeps_stable (w w' : Widget) :
  props w' = props w -> isDragging w' = isDragging w -> sameDeps w w' = true.
Proof.
  intros Hp Hd. unfold sameDeps. rewrite Hp, Hd.
  now rewrite option_Z_eqb_refl, !Z.eqb_refl, Bool.eqb_reflx.
Qed.

Lemma step_stable (e : Event) (w : Widget) :
  props (dispatch e w) = props w ->
  isDragging (dispatch e w) = isDragging w ->
  step e w = dispatch e w.
Proof.
  intros Hp Hd. unfold step. now rewrite sameDeps_stable.
Qed.

Lemma step_ignored (e : Event) (w : Widget) :
  dispatch e w = w -> step e w = w.
Proof.
  intros E. rewrite step_stable; rewrite E; reflexivity.
Qed.

(** The sync effect writes [displayValue] and [thumbX] only. *)
Lemma syncControlled_frame (w : Widget) :
  props (syncControlled w) = props w
  /\ trackRef (syncControlled w) = trackRef w
  /\ internalValue (syncControlled w) = internalValue w
  /\ isDragging (syncControlled w) = isDragging w
  /\ isHovering (syncControlled w) = isHovering w
  /\ animation (syncControlled w) = animation w
  /\ calls (syncControlled w) = calls w.
Proof.
  unfold syncControlled.
  destruct (value (props w)); [destruct (isDragging w) eqn:Hd|];
    cbn; rewrite ?Hd; auto 10.
Qed.

Lemma changes_app (cs ds : list Call) :
  changes (cs ++ ds) = changes cs ++ changes ds.
Proof.
  induction cs as [|c cs IH]; simpl; [reflexivity|].
  destruct c; simpl; now rewrite IH.
Qed.

End StepFacts.

(** *** Release *)

(** Both release handlers, during a drag: the thumb position is snapped and
    a settle animation towards the snapped value is started. *)
Lemma handlePointerUp_dragging (w : Widget) :
  isDragging w = true ->
  let snapped :=
    snapToNearest (props w) (xToLeverage (props w) (trackRef w) (thumbX w)) in
  handlePointerUp w
  = animateThumbTo (leverageToX (props w) (trackRef w) snapped)
      (DragSettle (props w) snapped) w
  /\ globalPointerUp w = handlePointerUp w.
Proof.
  intros Hd. unfold globalPointerUp, handlePointerUp. rewrite Hd. now simpl.
Qed.

Lemma release_step (w : Widget) :
  isDragging w = true ->
  step PointerUp w = handlePointerUp w
  /\ step GlobalPointerUp w = handlePointerUp w.
Proof.
  intros Hd. destruct (handlePointerUp_dragging w Hd) as [E G].
  split; rewrite step_stable; simpl; rewrite ?G, ?E; reflexivity.
Qed.

(** *** Disabled widget *)

(** With [disabled] set, pointer-down, pointer-move, label tap and key-down
    return at their first line. *)
Lemma disabled_handlers (w : Widget) :
  disabled (props w) = true ->
  (forall x, handlePointerDown x w = w)
  /\ (forall x, handlePointerMove x w = w)
  /\ (forall val, handleLabelTap val w = w)
  /\ (forall key, handleKeyDown key w = w).
Proof.
  intros Hd. repeat split; intros.
  - unfold handlePointerDown. now rewrite Hd.
  - unfold handlePointerMove. rewrite Hd. now rewrite orb_true_r.
  - unfold handleLabelTap. now rewrite Hd.
  - unfold handleKeyDown. now rewrite Hd.
Qed.

(** The handlers of a disabled slider.  Pointer-down, pointer-move,
    key-down and label tap test [disabled] and leave the whole widget as it
    was, and so does a pointer-up (in the widget or global) that arrives
    while no drag is in progress.  [handlePointerUp] alone has no test of
    [disabled]: during a drag it starts the settle all the same. *)
Theorem disabled_noop (w : Widget) :
  disabled (props w) = true ->
  (forall x, step (PointerDown x) w = w)
  /\ (forall x, step (PointerMove x) w = w)
  /\ (forall key, step (KeyDown key) w = w)
  /\ (forall val, step (LabelTap val) w = w)
  /\ (isDragging w = false ->
      step PointerUp w = w /\ step GlobalPointerUp w = w)
  /\ (isDragging w = true ->
      let snapped :=
        snapToNearest (props w) (xToLeverage (props w) (trackRef w) (thumbX w)) in
      step PointerUp w
      = animateThumbTo (leverageToX (props w) (trackRef w) snapped)
          (DragSettle (props w) snapped) w
      /\ step GlobalPointerUp w = step PointerUp w).
Proof.
  intros Hd. destruct (disabled_handlers w Hd) as (Hdown & Hmove & Htap & Hkey).
  repeat split; intros.
  - apply step_ignored, Hdown.
  - apply step_ignored, Hmove.
  - apply step_ignored, Hkey.
  - apply step_ignored, Htap.
  - apply step_ignored. simpl. unfold handlePointerUp. now rewrite H.
  - apply step_ignored. simpl. unfold globalPointerUp. now rewrite H.
  - destruct (release_step w H) as [E _]. rewrite E.
    apply (handlePointerUp_dragging w H).
  - destruct (release_step w H) as [E G]. now rewrite E, G.
Qed.

(** A slider disabled from the start, on an 800 pixel track. *)
Lemma disabled_noop_witness :
  let w := mount (observedProps 6 true) (track 800) in
  step (PointerDown 400) w = w
  /\ step (PointerMove 410) w = w
  /\ step (KeyDown "End") w = w
  /\ step (LabelTap 4) w = w
  /\ step PointerUp w = w
  /\ step GlobalPointerUp w = w.
Proof.
  intro w.
  destruct (disabled_noop w) as (Hdown & Hmove & Hkey & Htap & Hup & _);
    [reflexivity|].
  destruct Hup as [Hu Hg]; [reflexivity|].
  split; [apply Hdown|]. split; [apply Hmove|]. split; [apply Hkey|].
  split; [apply Htap|]. split; [exact Hu | exact Hg].
Defined.

(** A slider that is disabled and not in a drag ignores every input, and
    so one mounted disabled stays exactly as mounted under any sequence of
    inputs: a drag has to start while the slider is enabled. *)
Lemma disabled_idle_ignores (w : Widget) (e : Event) :
  disabled (props w) = true -> isDragging w = false -> isInput e = true ->
  step e w = w.
Proof.
  intros Hd Hi He. destruct (disabled_handlers w Hd) as (Hdown & Hmove & Htap & Hkey).
  apply step_ignored.
  destruct e; try discriminate; simpl; auto.
  - unfold handlePointerUp. now rewrite Hi.
  - unfold globalPointerUp. now rewrite Hi.
Qed.

Lemma mount_props (p : Props) (rect : option DOMRect) :
  props (mount p rect) = p /\ isDragging (mount p rect) = false.
Proof.
  unfold mount. simpl.
  match goal with
  | |- props (syncControlled ?u) = _ /\ _ =>
    destruct (syncControlled_frame u) as (Hp & _ & _ & Hd & _)
  end.
  rewrite Hp, Hd. split; reflexivity.
Qed.

Lemma mounted_disabled_inert (p : Props) (rect : option DOMRect)
    (es : list Event) :
  disabled p = true -> forallb isInput es = true ->
  run es (mount p rect) = mount p rect.
Proof.
  intros Hd. destruct (mount_props p rect) as [Hp Hi].
  induction es as [|e es IH]; intros Hes; [reflexivity|].
  simpl in Hes. apply andb_true_iff in Hes. destruct Hes as [He Hes].
  unfold run in *. simpl.
  rewrite disabled_idle_ignores; auto. now rewrite Hp.
Qed.

(** C5.  The code at the input on which it breaks the disabled no-op.  A
    drag starts at pixel 400 of an 800 pixel track while the slider is
    enabled; the owner then disables it.  A pointer-move is now ignored, as
    [handlePointerMove] tests [disabled]; the release is not, as
    [handlePointerUp] does not: it starts the settle animation, whose
    completion writes the committed value (5 to 6) and invokes [onChange]
    and [onDragEnd], all while [disabled] is set. *)
Theorem disabled_pointer_up_commits :
  let w := run [PointerDown 400; Render (observedProps 5 true)]
               (mount (observedProps 5 false) (track 800)) in
  disabled (props w) = true
  /\ step (PointerMove 500) w = w
  /\ animation w = None
  /\ animation (step GlobalPointerUp w) <> None
  /\ step PointerUp w <> w
  /\ calls w = [OnDragStart]
  /\ calls (run [GlobalPointerUp; AnimationComplete] w)
     = [OnDragStart; OnChange (ofZ 6); OnDragEnd (ofZ 6)]
  /\ isDragging w = true
  /\ isDragging (run [GlobalPointerUp; AnimationComplete] w) = false
  /\ internalValue w = ofZ 5
  /\ internalValue (run [GlobalPointerUp; AnimationComplete] w) = ofZ 6.
Proof.
  cbv zeta. repeat split; discriminate.
Qed.

(** *** Keyboard *)

(** What [handleKeyDown] computes into [newVal]; [None] is the early
    [return] on any other key. *)
Lemma handleKeyDown_enabled (key : string) (w : Widget) :
  disabled (props w) = false ->
  (key = "ArrowRight"%string \/ key = "ArrowUp"%string ->
   let newVal := Math_min (add (currentValue w) (ofZ 1)) (ofZ (max (props w))) in
   handleKeyDown key w
   = animateThumbTo (leverageToX (props w) (trackRef w) newVal)
       (Commit (props w) newVal) (setDisplayValue newVal w))
  /\ (key = "ArrowLeft"%string \/ key = "ArrowDown"%string ->
      let newVal := Math_max (sub (currentValue w) (ofZ 1)) (ofZ (min (props w))) in
      handleKeyDown key w
      = animateThumbTo (leverageToX (props w) (trackRef w) newVal)
          (Commit (props w) newVal) (setDisplayValue newVal w))
  /\ (key = "Home"%string ->
      let newVal := ofZ (min (props w)) in
      handleKeyDown key w
      = animateThumbTo (leverageToX (props w) (trackRef w) newVal)
          (Commit (props w) newVal) (setDisplayValue newVal w))
  /\ (key = "End"%string ->
      let newVal := ofZ (max (props w)) in
      handleKeyDown key w
      = animateThumbTo (leverageToX (props w) (trackRef w) newVal)
          (Commit (props w) newVal) (setDisplayValue newVal w)).
Proof.
  intros Hen. unfold handleKeyDown. rewrite Hen.
  repeat split; intros H; repeat destruct H as [H | H]; subst key; reflexivity.
Qed.

Lemma keyDown_step (key : string) (w : Widget) :
  step (KeyDown key) w = handleKeyDown key w.
Proof.
  apply step_stable; simpl; unfold handleKeyDown;
    destruct (disabled (props w)); try reflexivity;
    match goal with
    | |- context [match ?o with Some _ => _ | None => _ end] => destruct o
    end; reflexivity.
Qed.

Lemma step_up_at_max (m : Z) : Math_min (add (ofZ m) (ofZ 1)) (ofZ m) = ofZ m.
Proof.
  unfold Math_min, add, ofZ, leb.
  destruct (Qle_bool (inject_Z m + inject_Z 1) (inject_Z m)) eqn:E; [|reflexivity].
  apply Qle_bool_iff in E. rewrite <- inject_Z_plus, <- Zle_Qle in E. lia.
Qed.

Lemma step_down_at_min (m : Z) : Math_max (sub (ofZ m) (ofZ 1)) (ofZ m) = ofZ m.
Proof.
  unfold Math_max, sub, add, neg, ofZ, leb.
  destruct (Qle_bool (inject_Z m + - inject_Z 1) (inject_Z m)) eqn:E; [reflexivity|].
  assert (H : inject_Z m + - inject_Z 1 <= inject_Z m).
  { rewrite <- inject_Z_opp, <- inject_Z_plus, <- Zle_Qle. lia. }
  apply Qle_bool_iff in H. congruence.
Qed.

(** Completion of a [Commit] settle: the thumb is on its target, the
    animation is over, and [updateValue] has run. *)
Lemma commit_completes (w : Widget) (targetX : number) (p : Props) (val : number) :
  animation w = Some (targetX, Commit p val) ->
  step AnimationComplete w
  = updateValue p val (setAnimation None (thumbX_set targetX w)).
Proof.
  intros Ha.
  assert (E : dispatch AnimationComplete w
              = updateValue p val (setAnimation None (thumbX_set targetX w))).
  { simpl. unfold completeAnimation. now rewrite Ha. }
  rewrite step_stable; rewrite E; [reflexivity | |];
    unfold updateValue; destruct (value p), (onChange p); reflexivity.
Qed.

(** C2, as the code has it.  At [currentValue = max], ArrowRight and ArrowUp
    compute [newVal = max]: the committed value stays at [max] and nothing is
    invoked by the handler, but the event is not dropped.  [displayValue] is
    set to [max], a settle animation towards the position of [max] is
    started, and its completion runs [updateValue max], which invokes
    [onChange max] (when supplied) though the value is the same.  The same
    holds at [min] for ArrowLeft and ArrowDown. *)
Theorem keyboard_at_boundary (key : string) (w : Widget) (bound : Z) :
  disabled (props w) = false ->
  ((key = "ArrowRight"%string \/ key = "ArrowUp"%string)
   /\ bound = max (props w))
  \/ ((key = "ArrowLeft"%string \/ key = "ArrowDown"%string)
      /\ bound = min (props w)) ->
  currentValue w = ofZ bound ->
  let w1 := step (KeyDown key) w in
  let w2 := step AnimationComplete w1 in
  w1 = animateThumbTo (leverageToX (props w) (trackRef w) (ofZ bound))
         (Commit (props w) (ofZ bound)) (setDisplayValue (ofZ bound) w)
  /\ currentValue w1 = ofZ bound
  /\ calls w1 = calls w
  /\ currentValue w2 = ofZ bound
  /\ calls w2 = if onChange (props w)
                then calls w ++ [OnChange (ofZ bound)] else calls w.
Proof.
  intros Hen Hkey Hcur w1 w2.
  assert (E1 : w1 = animateThumbTo (leverageToX (props w) (trackRef w) (ofZ bound))
                      (Commit (props w) (ofZ bound)) (setDisplayValue (ofZ bound) w)).
  { unfold w1. rewrite keyDown_step.
    destruct (handleKeyDown_enabled key w Hen) as (Hup & Hdown & _).
    destruct Hkey as [[Hk Hb] | [Hk Hb]].
    - rewrite (Hup Hk). cbv zeta. rewrite Hcur, Hb, step_up_at_max. reflexivity.
    - rewrite (Hdown Hk). cbv zeta. rewrite Hcur, Hb, step_down_at_min. reflexivity. }
  assert (Hc1 : currentValue w1 = ofZ bound) by (rewrite E1; exact Hcur).
  assert (E2 : w2 = updateValue (props w) (ofZ bound)
                      (setAnimation None
                         (thumbX_set (leverageToX (props w) (trackRef w) (ofZ bound)) w1))).
  { unfold w2. apply commit_completes. rewrite E1. reflexivity. }
  split; [exact E1|]. split; [exact Hc1|]. split; [now rewrite E1|].
  rewrite E2. unfold updateValue, currentValue in *.
  split.
  - rewrite E1 in Hc1 |- *. simpl in Hc1 |- *.
    destruct (value (props w)) eqn:Hv, (onChange (props w));
      simpl; rewrite ?Hv; auto.
  - rewrite E1. destruct (value (props w)), (onChange (props w)); reflexivity.
Qed.

(** The demo page at the top of its range, on an 800 pixel track. *)
Lemma keyboard_at_boundary_witness :
  let w := mount (appProps 10) (track 800) in
  let w1 := step (KeyDown "ArrowRight") w in
  let w2 := step AnimationComplete w1 in
  w1 = animateThumbTo (leverageToX (props w) (trackRef w) (ofZ 10))
         (Commit (props w) (ofZ 10)) (setDisplayValue (ofZ 10) w)
  /\ currentValue w1 = ofZ 10
  /\ calls w1 = calls w
  /\ currentValue w2 = ofZ 10
  /\ calls w2 = if onChange (props w)
                then calls w ++ [OnChange (ofZ 10)] else calls w.
Proof.
  intro w. apply (keyboard_at_boundary "ArrowRight" w 10).
  - reflexivity.
  - left. split; [left|]; reflexivity.
  - reflexivity.
Defined.

(** C2 as stated fails.  The demo page holds the value 10 = max; ArrowRight
    starts a settle animation, and when it completes [onChange] is invoked
    with 10. *)
Lemma keyboard_at_max_counterexample :
  let w := mount (appProps 10) (track 800) in
  currentValue w = ofZ (max (props w))
  /\ animation w = None
  /\ animation (step (KeyDown "ArrowRight") w) <> None
  /\ step (KeyDown "ArrowRight") w <> w
  /\ calls w = []
  /\ calls (run [KeyDown "ArrowRight"; AnimationComplete] w) = [OnChange (ofZ 10)]
  /\ calls (run [KeyDown "ArrowUp"; AnimationComplete] w) = [OnChange (ofZ 10)].
Proof.
  cbv zeta. repeat split; discriminate.
Qed.

Lemma succ_above (c lo : Z) :
  (lo <= c)%Z -> Math_max (add (ofZ c) (ofZ 1)) (ofZ lo) = add (ofZ c) (ofZ 1).
Proof.
  intros H. unfold Math_max, add, ofZ, leb.
  destruct (Qle_bool (inject_Z c + inject_Z 1) (inject_Z lo)) eqn:E; [|reflexivity].
  apply Qle_bool_iff in E. rewrite <- inject_Z_plus, <- Zle_Qle in E. lia.
Qed.

Lemma pred_below (c lo hi : Z) :
  (lo <= c <= hi)%Z ->
  Math_min (Math_max (sub (ofZ c) (ofZ 1)) (ofZ lo)) (ofZ hi)
  = Math_max (sub (ofZ c) (ofZ 1)) (ofZ lo).
Proof.
  intros H. unfold Math_max, sub, add, neg, ofZ.
  cbv beta iota.
  destruct (leb (Fin (inject_Z c + - inject_Z 1)) (Fin (inject_Z lo)));
    unfold Math_min, leb.
  - destruct (Qle_bool (inject_Z lo) (inject_Z hi)) eqn:E; [reflexivity|].
    assert (L : inject_Z lo <= inject_Z hi) by (rewrite <- Zle_Qle; lia).
    apply Qle_bool_iff in L. congruence.
  - destruct (Qle_bool (inject_Z c + - inject_Z 1) (inject_Z hi)) eqn:E;
      [reflexivity|].
    assert (L : inject_Z c + - inject_Z 1 <= inject_Z hi).
    { rewrite <- inject_Z_opp, <- inject_Z_plus, <- Zle_Qle. lia. }
    apply Qle_bool_iff in L. congruence.
Qed.

(** C10. A keyboard step is computed from [currentValue], the committed
    value, as held when the key arrives: the new [displayValue] is
    [clamp (currentValue + 1)] for ArrowRight/ArrowUp,
    [clamp (currentValue - 1)] for ArrowLeft/ArrowDown, [min] for Home and
    [max] for End.  The [displayValue] in flight plays no part: whatever it
    is replaced by, the key gives the same result. *)
Theorem keyboard_steps_from_committed (key : string) (w : Widget) (c : Z) :
  disabled (props w) = false ->
  currentValue w = ofZ c ->
  (min (props w) <= c <= max (props w))%Z ->
  let lo := ofZ (min (props w)) in
  let hi := ofZ (max (props w)) in
  (key = "ArrowRight"%string \/ key = "ArrowUp"%string ->
   forall d, displayValue (step (KeyDown key) (setDisplayValue d w))
             = clamp (add (currentValue w) (ofZ 1)) lo hi)
  /\ (key = "ArrowLeft"%string \/ key = "ArrowDown"%string ->
      forall d, displayValue (step (KeyDown key) (setDisplayValue d w))
                = clamp (sub (currentValue w) (ofZ 1)) lo hi)
  /\ (key = "Home"%string ->
      forall d, displayValue (step (KeyDown key) (setDisplayValue d w)) = lo)
  /\ (key = "End"%string ->
      forall d, displayValue (step (KeyDown key) (setDisplayValue d w)) = hi).
Proof.
  intros Hen Hcur Hc lo hi.
  assert (K : forall d, disabled (props (setDisplayValue d w)) = false)
    by (intros; exact Hen).
  repeat split; intros Hk d; rewrite keyDown_step;
    destruct (handleKeyDown_enabled key _ (K d)) as (Hup & Hdown & Hhome & Hend).
  - rewrite (Hup Hk). cbv zeta. unfold clamp, lo, hi.
    change (currentValue (setDisplayValue d w)) with (currentValue w).
    rewrite Hcur, succ_above by lia. reflexivity.
  - rewrite (Hdown Hk). cbv zeta. unfold clamp, lo, hi.
    change (currentValue (setDisplayValue d w)) with (currentValue w).
    rewrite Hcur, pred_below by lia. reflexivity.
  - rewrite (Hhome Hk). reflexivity.
  - rewrite (Hend Hk). reflexivity.
Qed.

(** The default slider, idle at 6, with 9 on display: ArrowUp displays 7. *)
Lemma keyboard_steps_from_committed_witness :
  let w := mount defaultProps (track 800) in
  currentValue w = ofZ 6
  /\ displayValue (step (KeyDown "ArrowUp") (setDisplayValue (ofZ 9) w))
     = clamp (add (currentValue w) (ofZ 1)) (ofZ 2) (ofZ 10)
  /\ displayValue (step (KeyDown "ArrowUp") (setDisplayValue (ofZ 9) w)) = ofZ 7.
Proof.
  intro w.
  destruct (keyboard_steps_from_committed "ArrowUp" w 6) as (Hup & _).
  - reflexivity.
  - reflexivity.
  - split; vm_compute; discriminate.
  - split; [reflexivity|]. split; [apply Hup; now right|].
    rewrite Hup by now right. reflexivity.
Defined.

(** The display moves backwards: from 6 a tap on the label 9 displays 9;
    ArrowRight before that settle completes steps from the committed 6 and
    displays 7; a second ArrowRight displays 7 again. *)
Example keyboard_step_moves_backwards :
  let w := mount defaultProps (track 800) in
  currentValue w = ofZ 6
  /\ displayValue (run [LabelTap 9] w) = ofZ 9
  /\ displayValue (run [LabelTap 9; KeyDown "ArrowRight"] w) = ofZ 7
  /\ displayValue (run [LabelTap 9; KeyDown "ArrowRight"; KeyDown "ArrowRight"] w)
     = ofZ 7.
Proof. repeat split. Qed.

(** *** Commit *)

(** Everything but [displayValue] and [thumbX] is the handler's doing. *)
Lemma step_frame (e : Event) (w : Widget) :
  props (step e w) = props (dispatch e w)
  /\ trackRef (step e w) = trackRef (dispatch e w)
  /\ internalValue (step e w) = internalValue (dispatch e w)
  /\ isDragging (step e w) = isDragging (dispatch e w)
  /\ isHovering (step e w) = isHovering (dispatch e w)
  /\ animation (step e w) = animation (dispatch e w)
  /\ calls (step e w) = calls (dispatch e w).
Proof.
  unfold step. destruct (sameDeps w (dispatch e w)).
  - repeat split.
  - apply syncControlled_frame.
Qed.

(** No input handler writes the committed value or invokes [onChange]. *)
Lemma handlers_do_not_commit (e : Event) (w : Widget) :
  e <> AnimationComplete -> (forall p, e <> Render p) ->
  props (dispatch e w) = props w
  /\ internalValue (dispatch e w) = internalValue w
  /\ changes (calls (dispatch e w)) = changes (calls w).
Proof.
  intros Hc Hr.
  destruct e as [cx | cx | | | val | key | | | | | p | rect]; simpl;
    try congruence.
  - unfold handlePointerDown. destruct (disabled (props w)); [auto|].
    simpl. destruct (onDragStart (props w)); simpl; auto.
    rewrite changes_app, app_nil_r. auto.
  - unfold handlePointerMove.
    destruct (negb (isDragging w) || disabled (props w)); auto.
  - unfold handlePointerUp. destruct (negb (isDragging w)); auto.
  - unfold globalPointerUp, handlePointerUp.
    destruct (isDragging w); simpl; auto.
  - unfold handleLabelTap. destruct (disabled (props w)); auto.
  - unfold handleKeyDown. destruct (disabled (props w)); [auto|].
    match goal with
    | |- context [match ?o with Some _ => _ | None => _ end] => destruct o
    end; auto.
  - unfold handleMouseEnter. destruct (negb (disabled (props w))); auto.
  - unfold handleMouseLeave. destruct (negb (isDragging w)); auto.
  - unfold handleResize. destruct (negb (isDragging w)); auto.
  - auto.
Qed.

(** C4. (1) During a drag a pointer-move writes [displayValue] and [thumbX]
    and nothing else: the committed value, the flags, the animation and the
    callback log are as before.  (2) No input event (pointer, label tap,
    key, hover, resize, layout) writes the committed value or invokes
    [onChange] within its handler.  (3) The write and the notification
    happen when the settle animation completes: its [onComplete] stores the
    value (uncontrolled mode) and invokes [onChange] with it. *)
Theorem deferred_commit (e : Event) (w : Widget) (x : Q)
    (targetX : number) (k : Completion) :
  (isDragging w = true ->
   let w' := step (PointerMove x) w in
   let b := getTrackBounds (trackRef w) in
   let relativeX := clamp (sub (Fin x) (left b)) (Fin 0) (width b) in
   w' = (if disabled (props w) then w else
         setDisplayValue
           (snapToNearest (props w) (xToLeverage (props w) (trackRef w) relativeX))
           (thumbX_set relativeX w))
   /\ currentValue w' = currentValue w
   /\ internalValue w' = internalValue w
   /\ isDragging w' = true
   /\ isHovering w' = isHovering w
   /\ animation w' = animation w
   /\ calls w' = calls w)
  /\ (e <> AnimationComplete -> (forall p, e <> Render p) ->
      currentValue (step e w) = currentValue w
      /\ internalValue (step e w) = internalValue w
      /\ changes (calls (step e w)) = changes (calls w))
  /\ (animation w = Some (targetX, k) ->
      let w' := step AnimationComplete w in
      let (p, v) := committed k in
      (value p = None -> internalValue w' = v)
      /\ changes (calls w')
         = changes (calls w) ++ (if onChange p then [v] else [])).
Proof.
  split; [|split].
  - intros Hd w' b relativeX.
    assert (E : dispatch (PointerMove x) w
                = if disabled (props w) then w else
                  setDisplayValue
                    (snapToNearest (props w)
                       (xToLeverage (props w) (trackRef w) relativeX))
                    (thumbX_set relativeX w)).
    { simpl. unfold handlePointerMove. rewrite Hd. simpl.
      destruct (disabled (props w)); reflexivity. }
    assert (E' : w' = dispatch (PointerMove x) w).
    { unfold w'. apply step_stable; rewrite E;
        destruct (disabled (props w)); reflexivity. }
    rewrite E', E. unfold currentValue.
    destruct (disabled (props w)); simpl; auto 10.
  - intros Hc Hr.
    destruct (handlers_do_not_commit e w Hc Hr) as (Hp & Hi & Hcalls).
    destruct (step_frame e w) as (Fp & _ & Fi & _ & _ & _ & Fc).
    unfold currentValue. rewrite Fp, Fi, Fc, Hp, Hi, Hcalls. auto.
  - intros Ha w'.
    destruct (step_frame AnimationComplete w) as (_ & _ & Fi & _ & _ & _ & Fc).
    unfold w'. rewrite Fi, Fc. simpl. unfold completeAnimation. rewrite Ha.
    destruct k as [p v | p v]; simpl; unfold updateValue;
      destruct (value p), (onChange p), (onDragEnd p); simpl;
      rewrite ?changes_app; simpl; rewrite ?app_nil_r;
      split; congruence.
Qed.

(** A press and release at the middle of an 800 pixel track, range 2..10:
    the press displays 6 at once and commits nothing; the release starts the
    settle; its completion commits 6, invokes [onChange 6] once and ends the
    drag. *)
Example drag_then_release :
  let w0 := mount (observedProps 3 false) (track 800) in
  let w1 := step (PointerDown 400) w0 in
  let w2 := run [PointerUp; GlobalPointerUp] w1 in
  let w3 := step AnimationComplete w2 in
  displayValue w1 = ofZ 6 /\ eqb (thumbX w1) (ofZ 400) = true
  /\ currentValue w1 = ofZ 3 /\ isDragging w1 = true
  /\ currentValue w2 = ofZ 3 /\ isDragging w2 = true /\ changes (calls w2) = []
  /\ currentValue w3 = ofZ 6 /\ isDragging w3 = false
  /\ calls w3 = [OnDragStart; OnChange (ofZ 6); OnDragEnd (ofZ 6)]
  /\ eqb (thumbX w3) (ofZ 400) = true.
Proof. repeat split. Qed.

(** Completion of the settle that follows a release. *)
Lemma drag_settle_completes (w : Widget) (targetX : number) (p : Props)
    (snapped : number) :
  animation w = Some (targetX, DragSettle p snapped) ->
  let w' := step AnimationComplete w in
  isDragging w' = false
  /\ animation w' = None
  /\ calls w' = calls w ++ (if onChange p then [OnChange snapped] else [])
                        ++ (if onDragEnd p then [OnDragEnd snapped] else [])
  /\ (value p = None -> internalValue w' = snapped)
  /\ (value p = None -> value (props w) = None -> displayValue w' = snapped).
Proof.
  intros Ha w'.
  assert (E : dispatch AnimationComplete w
              = onComplete (DragSettle p snapped)
                  (setAnimation None (thumbX_set targetX w))).
  { simpl. unfold completeAnimation. now rewrite Ha. }
  destruct (step_frame AnimationComplete w) as (_ & _ & Fi & Fd & _ & Fa & Fc).
  unfold w'. rewrite Fi, Fd, Fa, Fc, E.
  split; [|split; [|split; [|split]]].
  - simpl. unfold updateValue. now destruct (value p), (onChange p), (onDragEnd p).
  - simpl. unfold updateValue. now destruct (value p), (onChange p), (onDragEnd p).
  - simpl. unfold updateValue.
    destruct (value p), (onChange p), (onDragEnd p); simpl;
      rewrite <- ?app_assoc, ?app_nil_r; reflexivity.
  - intros Hv. simpl. unfold updateValue. rewrite Hv.
    now destruct (onChange p), (onDragEnd p).
  - intros Hv Hw. unfold step. rewrite E.
    assert (S : forall u, value (props u) = None -> syncControlled u = u).
    { intros u Hu. unfold syncControlled. now rewrite Hu. }
    match goal with
    | |- displayValue (if ?c then ?u else _) = _ =>
      assert (Hu : value (props u) = None);
        [| destruct c; rewrite ?(S u Hu)]
    end.
    + simpl. unfold updateValue. rewrite Hv.
      destruct (onChange p), (onDragEnd p); exact Hw.
    + simpl. unfold updateValue. rewrite Hv.
      now destruct (onChange p), (onDragEnd p).
    + simpl. unfold updateValue. rewrite Hv.
      now destruct (onChange p), (onDragEnd p).
Qed.

(** A release whose settle runs to its end.  A pointer-down on an enabled
    slider enters the drag.  From a state with the dragging flag set, a
    release signal -- the pointer-up of the track or the global [window]
    one, which is listened to for as long as the flag is set -- starts the
    settle towards the snapped value, and if that settle is the animation
    that completes, its [onComplete] clears the flag and runs the commit
    ([updateValue], [onDragEnd]). *)
Lemma release_then_completion (w0 : Widget) (x : Q) (w : Widget) (release : Event) :
  (disabled (props w0) = false -> isDragging (step (PointerDown x) w0) = true)
  /\ (isDragging w = true ->
      release = PointerUp \/ release = GlobalPointerUp ->
      let snapped :=
        snapToNearest (props w) (xToLeverage (props w) (trackRef w) (thumbX w)) in
      let w1 := step release w in
      let w2 := step AnimationComplete w1 in
      w1 = animateThumbTo (leverageToX (props w) (trackRef w) snapped)
             (DragSettle (props w) snapped) w
      /\ isDragging w2 = false
      /\ animation w2 = None
      /\ calls w2
         = calls w ++ (if onChange (props w) then [OnChange snapped] else [])
                   ++ (if onDragEnd (props w) then [OnDragEnd snapped] else [])
      /\ (value (props w) = None ->
          internalValue w2 = snapped /\ displayValue w2 = snapped)).
Proof.
  split.
  - intros Hen. destruct (step_frame (PointerDown x) w0) as (_ & _ & _ & Fd & _).
    rewrite Fd. simpl. unfold handlePointerDown. rewrite Hen.
    now destruct (onDragStart (props w0)).
  - intros Hd Hrel snapped w1 w2.
    destruct (release_step w Hd) as [Eu Eg].
    destruct (handlePointerUp_dragging w Hd) as [Eh _]. cbv zeta in Eh.
    assert (E1 : w1 = animateThumbTo (leverageToX (props w) (trackRef w) snapped)
                        (DragSettle (props w) snapped) w).
    { unfold w1. destruct Hrel; subst release; rewrite ?Eu, ?Eg; exact Eh. }
    assert (Ha : animation w1
                 = Some (leverageToX (props w) (trackRef w) snapped,
                         DragSettle (props w) snapped))
      by (rewrite E1; reflexivity).
    destruct (drag_settle_completes w1 _ _ _ Ha) as (Rd & Ra & Rc & Ri & Rv).
    fold w2 in Rd, Ra, Rc, Ri, Rv.
    split; [exact E1|]. split; [exact Rd|]. split; [exact Ra|].
    split.
    + rewrite Rc, E1. reflexivity.
    + intros Hv. split; [apply Ri, Hv | apply Rv; [exact Hv | rewrite E1; exact Hv]].
Qed.

(** A drag started at pixel 650 of an 800 pixel track, released outside the
    widget. *)
Lemma release_then_completion_witness :
  let w0 := mount (observedProps 3 false) (track 800) in
  let w := step (PointerDown 650) w0 in
  isDragging w = true
  /\ (let w2 := run [GlobalPointerUp; AnimationComplete] w in
      isDragging w2 = false
      /\ animation w2 = None
      /\ calls w2 = calls w ++ [OnChange (ofZ 9)] ++ [OnDragEnd (ofZ 9)]
      /\ internalValue w2 = ofZ 9 /\ displayValue w2 = ofZ 9).
Proof.
  intros w0 w.
  destruct (release_then_completion w0 650 w GlobalPointerUp) as [Hdown Hup].
  split; [apply Hdown; reflexivity|].
  destruct Hup as (_ & Rd & Ra & Rc & Rv); [reflexivity | now right |].
  split; [exact Rd|]. split; [exact Ra|]. split; [exact Rc|].
  apply Rv. reflexivity.
Defined.

(** C6.  The code at the input on which a release does not end the drag.
    On an 800 pixel track a drag starts at pixel 650 and is released
    outside the widget: the settle towards 9 is in flight, and only its
    [onComplete] would clear the dragging flag.  The End key, pressed
    before that settle completes, starts its own animation, which replaces
    the one in flight.  The animation that completes is the key's: 10 is
    committed, the drag's 9 never is, [onDragEnd] is never invoked, and with
    no animation left the dragging flag is still set.  The flag is cleared
    only by a further release that settles undisturbed. *)
Theorem release_superseded :
  let w0 := mount (observedProps 3 false) (track 800) in
  let w1 := run [PointerDown 650; GlobalPointerUp] w0 in
  let w := run [KeyDown "End"; AnimationComplete] w1 in
  isDragging w1 = true
  /\ animation w1
     = Some (leverageToX (props w0) (track 800) (ofZ 9),
             DragSettle (props w0) (ofZ 9))
  /\ isDragging w = true
  /\ animation w = None
  /\ currentValue w = ofZ 10
  /\ calls w = [OnDragStart; OnChange (ofZ 10)]
  /\ isDragging (run [GlobalPointerUp; AnimationComplete] w) = false.
Proof. repeat split. Qed.

(** *** Controlled mode *)

(** C7. When the owner of a controlled slider passes a different [value]
    while no drag is in progress, the render that delivers it sets
    [displayValue] to the clamped value and writes [thumbX] with
    [leverageToX] of it; no animation is started and nothing is invoked. *)
Theorem controlled_sync (w : Widget) (p' : Props) (v0 v : Z) :
  value (props w) = Some v0 -> value p' = Some v -> v <> v0 ->
  isDragging w = false ->
  let w' := step (Render p') w in
  let clampedValue := clamp (ofZ v) (ofZ (min p')) (ofZ (max p')) in
  displayValue w' = clampedValue
  /\ thumbX w' = leverageToX p' (trackRef w) clampedValue
  /\ currentValue w' = clampedValue
  /\ animation w' = animation w
  /\ calls w' = calls w
  /\ isDragging w' = false.
Proof.
  intros Hv0 Hv Hne Hd w' clampedValue.
  assert (E : w' = syncControlled (setProps p' w)).
  { unfold w', step. simpl dispatch.
    assert (S : sameDeps w (setProps p' w) = false).
    { unfold sameDeps. simpl. rewrite Hv0, Hv. simpl.
      assert (N : (v0 =? v)%Z = false) by (apply Z.eqb_neq; congruence).
      now rewrite N. }
    now rewrite S. }
  rewrite E. unfold syncControlled, currentValue. simpl.
  rewrite Hv, Hd. simpl. rewrite Hv. auto 10.
Qed.

(** The demo page: the owner moves the value from 6 to 9. *)
Lemma controlled_sync_witness :
  let w := mount (appProps 6) (track 800) in
  let w' := step (Render (appProps 9)) w in
  displayValue w = ofZ 6
  /\ displayValue w' = ofZ 9
  /\ thumbX w' = leverageToX (appProps 9) (track 800) (ofZ 9)
  /\ eqb (thumbX w') (ofZ 700) = true
  /\ animation w' = None
  /\ calls w' = [].
Proof.
  intros w w'.
  destruct (controlled_sync w (appProps 9) 6 9) as (Hdisp & Hx & _ & Ha & Hc & _);
    [reflexivity | reflexivity | discriminate | reflexivity |].
  split; [reflexivity|]. split; [exact Hdisp|]. split; [exact Hx|].
  split; [reflexivity|]. split; [exact Ha | exact Hc].
Defined.

(** An instance of the deferred commit: a drag released at pixel 400, its
    settle still in flight. *)
Lemma deferred_commit_witness :
  let w := run [PointerDown 400; PointerUp]
               (mount (observedProps 3 false) (track 800)) in
  currentValue (step (PointerMove 500) w) = currentValue w
  /\ calls (step (PointerMove 500) w) = calls w
  /\ currentValue (step (KeyDown "End") w) = currentValue w
  /\ changes (calls (step (KeyDown "End") w)) = changes (calls w)
  /\ internalValue (step AnimationComplete w) = ofZ 6
  /\ changes (calls (step AnimationComplete w)) = changes (calls w) ++ [ofZ 6].
Proof.
  intro w.
  destruct (deferred_commit (KeyDown "End") w 500
              (leverageToX (props w) (trackRef w) (ofZ 6))
              (DragSettle (props w) (ofZ 6))) as (Hmove & Hkey & Hdone).
  destruct Hmove as (_ & Hcur & _ & _ & _ & _ & Hcalls); [reflexivity|].
  destruct Hkey as (Kcur & _ & Kcalls); [discriminate | discriminate |].
  destruct Hdone as (Di & Dc); [reflexivity|].
  split; [exact Hcur|]. split; [exact Hcalls|]. split; [exact Kcur|].
  split; [exact Kcalls|]. split; [apply Di; reflexivity | exact Dc].
Defined.


(** ** Further properties of the utilities and the mapper *)

Lemma Qle_bool_false (a b : Q) : Qle_bool a b = false -> b < a.
Proof.
  intros H. apply Qnot_le_lt. intros L. apply Qle_bool_iff in L. congruence.
Qed.

(** On finite arguments [clamp] picks one of its three arguments. *)
Lemma clamp_Fin (a lo hi : Q) :
  lo <= hi ->
  exists r, clamp (Fin a) (Fin lo) (Fin hi) = Fin r
            /\ lo <= r <= hi /\ (lo <= a <= hi -> r == a).
Proof.
  intros H. unfold clamp, Math_max, Math_min, leb.
  destruct (Qle_bool a lo) eqn:E1;
    [apply Qle_bool_iff in E1 | apply Qle_bool_false in E1]; cbv beta iota.
  - destruct (Qle_bool lo hi) eqn:E2;
      [apply Qle_bool_iff in E2 | apply Qle_bool_false in E2];
      eexists; split; try reflexivity; split; try intros; lra.
  - destruct (Qle_bool a hi) eqn:E2;
      [apply Qle_bool_iff in E2 | apply Qle_bool_false in E2];
      eexists; split; try reflexivity; split; try intros; lra.
Qed.

(** X1. [clamp(val, lo, hi)] with finite bounds [lo <= hi]: [NaN] is
    returned as is and the infinities go to the bounds; for every other
    [val] the result lies between the bounds, a [val] between the bounds is
    returned ([===]), and clamping twice is clamping once. *)
Theorem clamp_spec (val : number) (lo hi : Q) :
  lo <= hi ->
  clamp NaN (Fin lo) (Fin hi) = NaN
  /\ clamp PosInf (Fin lo) (Fin hi) = Fin hi
  /\ clamp NegInf (Fin lo) (Fin hi) = Fin lo
  /\ (val <> NaN ->
      leb (Fin lo) (clamp val (Fin lo) (Fin hi)) = true
      /\ leb (clamp val (Fin lo) (Fin hi)) (Fin hi) = true
      /\ (leb (Fin lo) val = true -> leb val (Fin hi) = true ->
          eqb (clamp val (Fin lo) (Fin hi)) val = true)
      /\ eqb (clamp (clamp val (Fin lo) (Fin hi)) (Fin lo) (Fin hi))
             (clamp val (Fin lo) (Fin hi)) = true).
Proof.
  intros H.
  assert (Hle : Qle_bool lo hi = true) by now apply Qle_bool_iff.
  assert (Pinf : clamp PosInf (Fin lo) (Fin hi) = Fin hi) by reflexivity.
  assert (Ninf : clamp NegInf (Fin lo) (Fin hi) = Fin lo).
  { unfold clamp, Math_max, Math_min, leb. now rewrite Hle. }
  assert (Hfin : forall a,
             leb (Fin lo) (clamp (Fin a) (Fin lo) (Fin hi)) = true
             /\ leb (clamp (Fin a) (Fin lo) (Fin hi)) (Fin hi) = true
             /\ (lo <= a <= hi ->
                 eqb (clamp (Fin a) (Fin lo) (Fin hi)) (Fin a) = true)
             /\ eqb (clamp (clamp (Fin a) (Fin lo) (Fin hi)) (Fin lo) (Fin hi))
                    (clamp (Fin a) (Fin lo) (Fin hi)) = true).
  { intros a. destruct (clamp_Fin a lo hi H) as (r & -> & [L U] & Hin).
    destruct (clamp_Fin r lo hi H) as (r' & -> & _ & Hin').
    unfold leb, eqb. repeat split.
    - now apply Qle_bool_iff.
    - now apply Qle_bool_iff.
    - intros Ha. apply Qeq_bool_iff. now apply Hin.
    - apply Qeq_bool_iff. apply Hin'. now split. }
  split; [reflexivity|]. split; [exact Pinf|]. split; [exact Ninf|].
  intros Hn. destruct val as [a | | |]; try congruence.
  - destruct (Hfin a) as (B1 & B2 & B3 & B4).
    split; [exact B1|]. split; [exact B2|]. split; [|exact B4].
    unfold leb at 1 2. intros L U.
    apply Qle_bool_iff in L. apply Qle_bool_iff in U. apply B3. now split.
  - rewrite Pinf. destruct (Hfin hi) as (B1 & B2 & _ & B4).
    split; [unfold leb; exact Hle|]. split; [unfold leb; apply Qle_bool_iff; lra|].
    split; [discriminate|].
    destruct (clamp_Fin hi lo hi H) as (r & -> & _ & Hin).
    unfold eqb. apply Qeq_bool_iff. apply Hin. split; lra.
  - rewrite Ninf. 
    split; [unfold leb; apply Qle_bool_iff; lra|]. split; [unfold leb; exact Hle|].
    split; [discriminate|].
    destruct (clamp_Fin lo lo hi H) as (r & -> & _ & Hin).
    unfold eqb. apply Qeq_bool_iff. apply Hin. split; lra.
Qed.

(** Bounds 0 and 800, the pixel 950. *)
Lemma clamp_spec_witness :
  leb (Fin 0) (clamp (Fin 950) (Fin 0) (Fin 800)) = true
  /\ leb (clamp (Fin 950) (Fin 0) (Fin 800)) (Fin 800) = true
  /\ eqb (clamp (clamp (Fin 950) (Fin 0) (Fin 800)) (Fin 0) (Fin 800))
         (clamp (Fin 950) (Fin 0) (Fin 800)) = true.
Proof.
  destruct (clamp_spec (Fin 950) 0 800) as (_ & _ & _ & Hv); [discriminate|].
  destruct Hv as (L & U & _ & I); [discriminate|].
  split; [exact L|]. split; [exact U | exact I].
Defined.

(** X3. The ends of the track: for a finite width [w >= 0] and [min < max],
    [leverageToX min] is 0, [leverageToX max] is [w], and every value
    between [min] and [max] is placed between 0 and [w]. *)
Theorem leverageToX_range (p : Props) (ref : option DOMRect) (w v : Q) :
  width (getTrackBounds ref) = Fin w -> 0 <= w -> (min p < max p)%Z ->
  eqb (leverageToX p ref (ofZ (min p))) (Fin 0) = true
  /\ eqb (leverageToX p ref (ofZ (max p))) (Fin w) = true
  /\ (inject_Z (min p) <= v <= inject_Z (max p) ->
      leb (Fin 0) (leverageToX p ref (Fin v)) = true
      /\ leb (leverageToX p ref (Fin v)) (Fin w) = true).
Proof.
  intros Hw Hpos Hlt.
  pose proof (steps_nonzero p Hlt) as Hnz.
  pose proof (steps_positive p Hlt) as Hs.
  unfold ofZ. rewrite !(leverageToX_Fin p ref w) by assumption.
  unfold eqb, leb.
  split; [apply Qeq_bool_iff; field; exact Hnz|].
  split; [apply Qeq_bool_iff; field; exact Hnz|].
  intros [Hlo Hhi].
  set (s := inject_Z (max p) + - inject_Z (min p)) in *.
  assert (F0 : 0 <= (v + - inject_Z (min p)) / s).
  { apply Qle_shift_div_l; [exact Hs | lra]. }
  assert (F1 : (v + - inject_Z (min p)) / s <= 1).
  { apply Qle_shift_div_r; [exact Hs | unfold s; lra]. }
  split; apply Qle_bool_iff.
  - apply Qmult_le_0_compat; assumption.
  - assert (M : (v + - inject_Z (min p)) / s * w <= 1 * w)
      by (apply Qmult_le_compat_r; assumption).
    lra.
Qed.

(** The default range on an 800 pixel track, value 5. *)
Lemma leverageToX_range_witness :
  eqb (leverageToX defaultProps (track 800) (ofZ 2)) (Fin 0) = true
  /\ eqb (leverageToX defaultProps (track 800) (ofZ 10)) (Fin 800) = true
  /\ leb (Fin 0) (leverageToX defaultProps (track 800) (Fin 5)) = true
  /\ leb (leverageToX defaultProps (track 800) (Fin 5)) (Fin 800) = true.
Proof.
  destruct (leverageToX_range defaultProps (track 800) 800 5)
    as (Hmin & Hmax & Hin); [reflexivity | discriminate | reflexivity |].
  split; [exact Hmin|]. split; [exact Hmax|].
  apply Hin. split; discriminate.
Defined.


Lemma Qfloor_bounds (x : Q) :
  inject_Z (Qfloor x) <= x /\ x < inject_Z (Qfloor x) + 1.
Proof.
  split; [apply Qfloor_le|].
  pose proof (Qlt_floor x) as H. rewrite inject_Z_plus in H. exact H.
Qed.

Lemma Zle_of_Qlt_succ (a b : Z) : inject_Z a < inject_Z b + 1 -> (a <= b)%Z.
Proof.
  intros H. change 1 with (inject_Z 1) in H. rewrite <- inject_Z_plus in H.
  rewrite <- Zlt_Qlt in H. lia.
Qed.

(** X5. [snapToNearest] on a finite [x], for [min <= max]: inside the range
    it returns the integer nearest to [x] (within a half, a tie going up);
    below the range it returns [min] and above it [max]; it fixes the
    integers of the range; and it is non-decreasing. *)
Theorem snap_nearest (p : Props) (x y : Q) :
  (min p <= max p)%Z ->
  (inject_Z (min p) <= x <= inject_Z (max p) ->
   exists z : Z, snapToNearest p (Fin x) = ofZ z
                 /\ x - (1 # 2) < inject_Z z /\ inject_Z z <= x + (1 # 2))
  /\ (x <= inject_Z (min p) -> snapToNearest p (Fin x) = ofZ (min p))
  /\ (inject_Z (max p) <= x -> snapToNearest p (Fin x) = ofZ (max p))
  /\ (forall z : Z, (min p <= z <= max p)%Z -> snapToNearest p (ofZ z) = ofZ z)
  /\ (x <= y ->
      leb (snapToNearest p (Fin x)) (snapToNearest p (Fin y)) = true).
Proof.
  intros Hr. rewrite !snapToNearest_Fin.
  destruct (Qfloor_bounds (x + (1 # 2))) as [Fl Fu].
  set (f := Qfloor (x + (1 # 2))) in *.
  split; [|split; [|split; [|split]]].
  - intros [Hlo Hhi].
    assert (L : (min p <= f)%Z) by (apply Zle_of_Qlt_succ; lra).
    assert (U : (f <= max p)%Z).
    { assert (S : (f < max p + 1)%Z); [|lia].
      rewrite Zlt_Qlt, inject_Z_plus. change (inject_Z 1) with 1. lra. }
    exists f. split; [f_equal; lia|]. split; lra.
  - intros Hlo. f_equal.
    assert (U : (f <= min p)%Z); [|lia].
    assert (S : (f < min p + 1)%Z); [|lia].
    rewrite Zlt_Qlt, inject_Z_plus. change (inject_Z 1) with 1. lra.
  - intros Hhi. f_equal.
    assert (L : (max p <= f)%Z) by (apply Zle_of_Qlt_succ; lra). lia.
  - intros z Hz. unfold ofZ at 1. rewrite snapToNearest_Fin, Qfloor_half.
    f_equal. lia.
  - intros Hxy. rewrite leb_ofZ. apply Z.leb_le.
    assert (M : (f <= Qfloor (y + (1 # 2)))%Z)
      by (apply Qfloor_resp_le; lra).
    lia.
Qed.

(** The default range: 6.49 snaps to 6, and 6.49 <= 6.5 snaps no lower. *)
Lemma snap_nearest_witness :
  (exists z : Z, snapToNearest defaultProps (Fin (649 # 100)) = ofZ z
                 /\ (649 # 100) - (1 # 2) < inject_Z z
                 /\ inject_Z z <= (649 # 100) + (1 # 2))
  /\ leb (snapToNearest defaultProps (Fin (649 # 100)))
         (snapToNearest defaultProps (Fin (13 # 2))) = true.
Proof.
  destruct (snap_nearest defaultProps (649 # 100) (13 # 2))
    as (Hin & _ & _ & _ & Hmono); [discriminate|].
  split; [apply Hin; split; discriminate | apply Hmono; discriminate].
Defined.

(** ** Further properties of the handlers *)

Lemma syncControlled_while_dragging (w : Widget) :
  isDragging w = true -> syncControlled w = w.
Proof.
  intros Hd. unfold syncControlled. rewrite Hd. now destruct (value (props w)).
Qed.

(** A handler that leaves the slider dragging is not followed by a sync. *)
Lemma step_into_drag (e : Event) (w : Widget) :
  isDragging (dispatch e w) = true -> step e w = dispatch e w.
Proof.
  intros Hd. unfold step. destruct (sameDeps w (dispatch e w)); [reflexivity|].
  now apply syncControlled_while_dragging.
Qed.

(** The value shown for a finite [x]: an integer of the range, the bound on
    the side where [x] leaves the range. *)
Lemma snap_nearest_range (p : Props) (x : Q) :
  (min p <= max p)%Z ->
  (exists z : Z, snapToNearest p (Fin x) = ofZ z /\ (min p <= z <= max p)%Z)
  /\ (x <= inject_Z (min p) -> snapToNearest p (Fin x) = ofZ (min p))
  /\ (inject_Z (max p) <= x -> snapToNearest p (Fin x) = ofZ (max p)).
Proof.
  intros Hr. rewrite !snapToNearest_Fin.
  destruct (Qfloor_bounds (x + (1 # 2))) as [Fl Fu].
  set (f := Qfloor (x + (1 # 2))) in *.
  split; [|split].
  - eexists; split; [reflexivity | lia].
  - intros Hlo. f_equal.
    assert (S : (f < min p + 1)%Z); [|lia].
    rewrite Zlt_Qlt, inject_Z_plus. change (inject_Z 1) with 1. lra.
  - intros Hhi. f_equal.
    assert (L : (max p <= f)%Z) by (apply Zle_of_Qlt_succ; lra). lia.
Qed.

Lemma isIntegerIn_ofZ (lo hi z : Z) :
  isIntegerIn lo hi (ofZ z) = ((lo <=? z)%Z && (z <=? hi)%Z).
Proof.
  unfold isIntegerIn, ofZ. rewrite Qfloor_Z.
  now rewrite (proj2 (Qeq_bool_iff _ _) (Qeq_refl _)).
Qed.

(** The pixel a pointer at [clientX] is tracked at, and the value shown for
    it. *)
Lemma tracked_pixel (p : Props) (ref : option DOMRect) (l wd cx : Q) :
  getTrackBounds ref = {| left := Fin l; width := Fin wd |} ->
  0 < wd -> (min p < max p)%Z ->
  let relativeX := clamp (sub (Fin cx) (Fin l)) (Fin 0) (Fin wd) in
  let shown := snapToNearest p (xToLeverage p ref relativeX) in
  (exists r, relativeX = Fin r /\ 0 <= r <= wd
             /\ (cx <= l -> r == 0) /\ (l + wd <= cx -> r == wd)
             /\ (l <= cx <= l + wd -> r == cx - l))
  /\ isIntegerIn (min p) (max p) shown = true
  /\ (cx <= l -> shown = ofZ (min p))
  /\ (l + wd <= cx -> shown = ofZ (max p)).
Proof.
  intros Hb Hwd Hlt relativeX shown.
  assert (Hw : width (getTrackBounds ref) = Fin wd) by now rewrite Hb.
  assert (Hnz : ~ wd == 0) by lra.
  pose proof (steps_positive p Hlt) as Hs.
  assert (R : exists r, relativeX = Fin r /\ 0 <= r <= wd
                        /\ (cx <= l -> r == 0) /\ (l + wd <= cx -> r == wd)
                        /\ (l <= cx <= l + wd -> r == cx - l)).
  { unfold relativeX, sub, neg, add.
    destruct (clamp_Fin (cx + - l) 0 wd) as (r & E & B & I); [lra|].
    exists r. split; [exact E|]. split; [exact B|].
    revert E. unfold clamp, Math_max, Math_min, leb.
    destruct (Qle_bool (cx + - l) 0) eqn:E1;
      [apply Qle_bool_iff in E1 | apply Qle_bool_false in E1]; cbv beta iota.
    - destruct (Qle_bool 0 wd) eqn:E2;
        [apply Qle_bool_iff in E2 | apply Qle_bool_false in E2];
        intros E; injection E as <-; repeat split; intros; lra.
    - destruct (Qle_bool (cx + - l) wd) eqn:E2;
        [apply Qle_bool_iff in E2 | apply Qle_bool_false in E2];
        intros E; injection E as <-; repeat split; intros; lra. }
  split; [exact R|].
  destruct R as (r & Er & [R0 Rw] & Rlo & Rhi & _).
  unfold shown. rewrite Er, (xToLeverage_Fin p ref wd) by assumption.
  set (s := inject_Z (max p) + - inject_Z (min p)) in *.
  assert (F0 : 0 <= r / wd) by (apply Qle_shift_div_l; lra).
  assert (F1 : r / wd <= 1) by (apply Qle_shift_div_r; lra).
  assert (P0 : 0 <= r / wd * s) by (apply Qmult_le_0_compat; lra).
  assert (P1 : r / wd * s <= 1 * s) by (apply Qmult_le_compat_r; lra).
  destruct (snap_nearest_range p (inject_Z (min p) + r / wd * s))
    as (Hin & Hmin & Hmax); [lia|].
  split; [|split].
  - destruct Hin as (z & -> & Hz1 & Hz2). rewrite isIntegerIn_ofZ.
    apply Z.leb_le in Hz1. apply Z.leb_le in Hz2. now rewrite Hz1, Hz2.
  - intros Hc. apply Hmin. rewrite (Rlo Hc).
    assert (Z0 : 0 / wd * s == 0) by (field; exact Hnz). lra.
  - intros Hc. apply Hmax. rewrite (Rhi Hc).
    assert (Z1 : wd / wd * s == s) by (field; exact Hnz). unfold s in *. lra.
Qed.

(** What pointer-down, and pointer-move during a drag, leave behind. *)
Lemma pointer_handlers_track (w : Widget) (cx : Q) (e : Event) :
  e = PointerDown cx \/ (e = PointerMove cx /\ isDragging w = true) ->
  disabled (props w) = false ->
  let b := getTrackBounds (trackRef w) in
  let relativeX := clamp (sub (Fin cx) (left b)) (Fin 0) (width b) in
  isDragging (step e w) = true
  /\ thumbX (step e w) = relativeX
  /\ displayValue (step e w)
     = snapToNearest (props w) (xToLeverage (props w) (trackRef w) relativeX)
  /\ props (step e w) = props w
  /\ trackRef (step e w) = trackRef w.
Proof.
  intros He Hen b relativeX.
  assert (D : dispatch e w
              = setDisplayValue
                  (snapToNearest (props w)
                     (xToLeverage (props w) (trackRef w) relativeX))
                  (thumbX_set relativeX
                     (invoke (match e with
                              | PointerDown _ => onDragStart (props w)
                              | _ => false
                              end) OnDragStart
                        (setIsDragging true w)))).
  { destruct He as [-> | [-> Hd]]; simpl.
    - unfold handlePointerDown. rewrite Hen.
      now destruct (onDragStart (props w)).
    - unfold handlePointerMove. rewrite Hen, Hd. simpl.
      destruct w; simpl in *; subst; reflexivity. }
  assert (S : step e w = dispatch e w).
  { apply step_into_drag. rewrite D.
    destruct e; try reflexivity; now destruct (onDragStart (props w)). }
  rewrite S, D.
  destruct e; simpl; try destruct (onDragStart (props w)); auto.
Qed.

(** X6. Pointer tracking.  On an enabled slider with a track of positive
    width, a pointer-down (and a pointer-move during a drag) at [clientX]
    leaves the slider dragging with the thumb inside the track and the
    display on the integer of the range nearest to the thumb.  A pointer
    left of the track puts the thumb at 0 and displays [min]; one right of
    it puts the thumb at the width and displays [max]; one over the track
    puts the thumb under the pointer. *)
Theorem pointer_tracking (w : Widget) (l wd cx : Q) (e : Event) :
  e = PointerDown cx \/ (e = PointerMove cx /\ isDragging w = true) ->
  disabled (props w) = false ->
  getTrackBounds (trackRef w) = {| left := Fin l; width := Fin wd |} ->
  0 < wd -> (min (props w) < max (props w))%Z ->
  let w' := step e w in
  isDragging w' = true
  /\ leb (Fin 0) (thumbX w') = true /\ leb (thumbX w') (Fin wd) = true
  /\ isIntegerIn (min (props w)) (max (props w)) (displayValue w') = true
  /\ displayValue w'
     = snapToNearest (props w') (xToLeverage (props w') (trackRef w') (thumbX w'))
  /\ (cx <= l ->
      eqb (thumbX w') (Fin 0) = true /\ displayValue w' = ofZ (min (props w)))
  /\ (l + wd <= cx ->
      eqb (thumbX w') (Fin wd) = true /\ displayValue w' = ofZ (max (props w)))
  /\ (l <= cx <= l + wd -> eqb (thumbX w') (Fin (cx - l)) = true).
Proof.
  intros He Hen Hb Hwd Hlt w'.
  destruct (pointer_handlers_track w cx e He Hen) as (Hd & Hx & Hv & Hp & Hr).
  fold w' in Hd, Hx, Hv, Hp, Hr. rewrite Hb in Hx, Hv.
  cbn [left width] in Hx, Hv.
  destruct (tracked_pixel (props w) (trackRef w) l wd cx Hb Hwd Hlt)
    as ((r & Er & [R0 Rw] & Rlo & Rhi & Rin) & Hint & Hmin & Hmax).
  cbv zeta in Hint, Hmin, Hmax. rewrite Er in Hx, Hv, Hint, Hmin, Hmax.
  split; [exact Hd|]. rewrite Hp, Hr, Hv, Hx. unfold leb, eqb.
  split; [now apply Qle_bool_iff|]. split; [now apply Qle_bool_iff|].
  split; [exact Hint|]. split; [reflexivity|].
  split; [|split].
  - intros Hc. split; [apply Qeq_bool_iff; auto | auto].
  - intros Hc. split; [apply Qeq_bool_iff; auto | auto].
  - intros Hc. apply Qeq_bool_iff; auto.
Qed.

(** A press 30 pixels right of an 800 pixel track that starts at pixel 20. *)
Lemma pointer_tracking_witness :
  let w := setTrackRef (Some {| rect_left := 20; rect_width := 800 |})
             (mount defaultProps (track 800)) in
  let w' := step (PointerDown 850) w in
  isDragging w' = true
  /\ eqb (thumbX w') (Fin 800) = true
  /\ displayValue w' = ofZ 10
  /\ isIntegerIn 2 10 (displayValue w') = true.
Proof.
  intros w w'.
  destruct (pointer_tracking w 20 800 850 (PointerDown 850))
    as (Hd & _ & _ & Hi & _ & _ & Hright & _);
    [now left | reflexivity | reflexivity | reflexivity | reflexivity |].
  destruct Hright as [Hx Hv]; [discriminate|].
  split; [exact Hd|]. split; [exact Hx|]. split; [exact Hv | exact Hi].
Defined.

(** X7. Releasing twice is releasing once.  A release over the track runs
    [handlePointerUp] twice, from the track's [onPointerUp] and from the
    [window] listener; the second run leaves the widget exactly as the
    first did, in whichever order and whether or not a drag is in progress,
    so one release gives one settle and one commit. *)
Theorem release_idempotent (w : Widget) :
  step GlobalPointerUp (step PointerUp w) = step PointerUp w
  /\ step PointerUp (step GlobalPointerUp w) = step GlobalPointerUp w
  /\ step PointerUp (step PointerUp w) = step PointerUp w
  /\ run [PointerUp; GlobalPointerUp; AnimationComplete] w
     = run [PointerUp; AnimationComplete] w.
Proof.
  assert (K : step GlobalPointerUp w = step PointerUp w
              /\ step GlobalPointerUp (step PointerUp w) = step PointerUp w
              /\ step PointerUp (step PointerUp w) = step PointerUp w).
  { destruct (isDragging w) eqn:Hd.
    - destruct (release_step w Hd) as [Eu Eg].
      destruct (handlePointerUp_dragging w Hd) as [Eh _]. cbv zeta in Eh.
      rewrite Eu, Eg. split; [reflexivity|].
      assert (Hd' : isDragging (handlePointerUp w) = true)
        by (rewrite Eh; exact Hd).
      destruct (release_step _ Hd') as [Eu' Eg'].
      destruct (handlePointerUp_dragging _ Hd') as [Eh' _]. cbv zeta in Eh'.
      rewrite Eu', Eg', Eh'. rewrite Eh. split; reflexivity.
    - assert (Eu : step PointerUp w = w).
      { apply step_ignored. simpl. unfold handlePointerUp. now rewrite Hd. }
      assert (Eg : step GlobalPointerUp w = w).
      { apply step_ignored. simpl. unfold globalPointerUp. now rewrite Hd. }
      rewrite Eu, Eg. auto. }
  destruct K as (K0 & K1 & K2).
  split; [exact K1|]. split; [now rewrite K0|]. split; [exact K2|].
  unfold run. simpl. now rewrite K1.
Qed.

(** X8. A key other than the six the handler names is ignored: on any
    widget, enabled or not, it leaves the state as it was, starts no
    animation and invokes nothing. *)
Theorem unrecognised_key_ignored (key : string) (w : Widget) :
  key <> "ArrowRight"%string -> key <> "ArrowUp"%string ->
  key <> "ArrowLeft"%string -> key <> "ArrowDown"%string ->
  key <> "Home"%string -> key <> "End"%string ->
  step (KeyDown key) w = w.
Proof.
  intros H1 H2 H3 H4 H5 H6. apply step_ignored. simpl.
  unfold handleKeyDown.
  apply String.eqb_neq in H1, H2, H3, H4, H5, H6.
  rewrite H1, H2, H3, H4, H5, H6. simpl.
  now destruct (disabled (props w)).
Qed.

(** Enter, on a slider with a settle in flight. *)
Lemma unrecognised_key_ignored_witness :
  let w := step (LabelTap 9) (mount defaultProps (track 800)) in
  step (KeyDown "Enter") w = w.
Proof.
  intro w. apply (unrecognised_key_ignored "Enter" w); discriminate.
Defined.

(** X9. The initial value follows the priority [value], [defaultValue],
    midpoint; the first two are clamped into the range, the midpoint is
    [(min + max) / 2] rounded half up; and for [min <= max] the result is in
    every case an integer of the range. *)
Theorem getInitialValue_spec (p : Props) :
  (forall v, value p = Some v ->
     getInitialValue p = ofZ (Z.min (Z.max v (min p)) (max p)))
  /\ (forall d, value p = None -> defaultValue p = Some d ->
        getInitialValue p = ofZ (Z.min (Z.max d (min p)) (max p)))
  /\ (value p = None -> defaultValue p = None ->
      getInitialValue p = ofZ ((min p + max p + 1) / 2))
  /\ ((min p <= max p)%Z ->
      isIntegerIn (min p) (max p) (getInitialValue p) = true).
Proof.
  assert (Mid : Math_round (div (add (ofZ (min p)) (ofZ (max p))) (ofZ 2))
                = ofZ ((min p + max p + 1) / 2)).
  { unfold ofZ, add. rewrite div_Fin by discriminate.
    unfold Math_round, ofZ. do 2 f_equal.
    unfold Qfloor, Qdiv, Qplus, Qmult, Qinv, inject_Z; simpl.
    rewrite !Z.mul_1_r.
    replace ((min p + max p) * 2 + 2)%Z with ((min p + max p + 1) * 2)%Z by lia.
    change 4%Z with (2 * 2)%Z. apply Z.div_mul_cancel_r; lia. }
  unfold getInitialValue.
  split; [|split; [|split]].
  - intros v ->. apply clamp_ofZ.
  - intros d -> ->. apply clamp_ofZ.
  - intros -> ->. exact Mid.
  - intros Hr. destruct (value p) as [v|]; [|destruct (defaultValue p) as [d|]];
      rewrite ?clamp_ofZ, ?Mid, isIntegerIn_ofZ;
      apply andb_true_iff; split; apply Z.leb_le; try lia.
    + apply Z.div_le_lower_bound; lia.
    + assert (U : ((min p + max p + 1) / 2 < max p + 1)%Z)
        by (apply Z.div_lt_upper_bound; lia).
      lia.
Qed.

(** A default of 14 on the range 2..10 starts at 10. *)
Lemma getInitialValue_spec_witness :
  getInitialValue (observedProps 14 false) = ofZ 10
  /\ isIntegerIn 2 10 (getInitialValue (observedProps 14 false)) = true.
Proof.
  destruct (getInitialValue_spec (observedProps 14 false)) as (_ & Hd & _ & Hi).
  split; [apply (Hd 14%Z); reflexivity | apply Hi; discriminate].
Defined.

Lemma isIntegerIn_elim (lo hi : Z) (x : number) :
  isIntegerIn lo hi x = true ->
  exists q z, x = Fin q /\ q == inject_Z z /\ (lo <= z <= hi)%Z.
Proof.
  destruct x as [q | | |]; try discriminate. unfold isIntegerIn.
  intros H. apply andb_true_iff in H. destruct H as [H Hhi].
  apply andb_true_iff in H. destruct H as [Hq Hlo].
  apply Qeq_bool_iff in Hq. apply Z.leb_le in Hlo, Hhi.
  exists q, (Qfloor q). auto.
Qed.

Lemma isIntegerIn_intro (lo hi : Z) (q : Q) (z : Z) :
  q == inject_Z z -> (lo <= z <= hi)%Z -> isIntegerIn lo hi (Fin q) = true.
Proof.
  intros Hq [Hlo Hhi]. unfold isIntegerIn.
  assert (F : Qfloor q = z) by (rewrite Hq; apply Qfloor_Z).
  rewrite F. apply Z.leb_le in Hlo, Hhi. rewrite Hlo, Hhi.
  now rewrite (proj2 (Qeq_bool_iff _ _) Hq).
Qed.

Lemma positiveWidth_width (rect : option DOMRect) :
  positiveWidth rect ->
  exists l wd, getTrackBounds rect = {| left := Fin l; width := Fin wd |}
               /\ 0 < wd.
Proof.
  destruct rect as [r|]; simpl; intros H.
  - exists (rect_left r), (rect_width r). auto.
  - exists 0, 400. split; reflexivity.
Qed.

(** The thumb placed on a value of the range is read back as that value. *)
Lemma thumb_round_trip (p : Props) (ref : option DOMRect) (wd q : Q) (z : Z) :
  width (getTrackBounds ref) = Fin wd -> 0 < wd -> (min p < max p)%Z ->
  q == inject_Z z -> (min p <= z <= max p)%Z ->
  snapToNearest p (xToLeverage p ref (leverageToX p ref (Fin q))) = ofZ z.
Proof.
  intros Hw Hpos Hlt Hq Hz.
  assert (Hnz : ~ wd == 0) by lra.
  pose proof (steps_nonzero p Hlt) as Hs.
  rewrite (leverageToX_Fin p ref wd) by assumption.
  rewrite (xToLeverage_Fin p ref wd) by assumption.
  rewrite snapToNearest_Fin.
  match goal with
  | |- context [Qfloor ?e] =>
    assert (E : e == inject_Z z + (1 # 2))
      by (rewrite <- Hq; field; split; assumption)
  end.
  rewrite E, Qfloor_half. f_equal. lia.
Qed.

Lemma labelTap_step (val : Z) (w : Widget) :
  step (LabelTap val) w = handleLabelTap val w.
Proof.
  apply step_stable; simpl; unfold handleLabelTap;
    destruct (disabled (props w)); reflexivity.
Qed.

(** X10. A label tap on an enabled, uncontrolled slider.  At once the
    display shows the tapped value while the committed value and the thumb
    stay; the settle towards the tick is in flight.  When it completes the
    committed value is the tapped one, the thumb is on its tick, no
    animation is left and [onChange] has been invoked once with the value. *)
Theorem label_tap_settles (w : Widget) (val : Z) :
  disabled (props w) = false -> value (props w) = None ->
  let target := leverageToX (props w) (trackRef w) (ofZ val) in
  let w1 := step (LabelTap val) w in
  let w2 := step AnimationComplete w1 in
  (displayValue w1 = ofZ val /\ currentValue w1 = currentValue w
   /\ thumbX w1 = thumbX w /\ calls w1 = calls w
   /\ animation w1 = Some (target, Commit (props w) (ofZ val)))
  /\ (displayValue w2 = ofZ val /\ currentValue w2 = ofZ val
      /\ thumbX w2 = target /\ animation w2 = None
      /\ calls w2 = calls w ++ (if onChange (props w)
                               then [OnChange (ofZ val)] else [])).
Proof.
  intros Hen Hv target w1 w2.
  assert (E1 : w1 = animateThumbTo target (Commit (props w) (ofZ val))
                      (setDisplayValue (ofZ val) w)).
  { unfold w1. rewrite labelTap_step. unfold handleLabelTap. now rewrite Hen. }
  assert (E2 : w2 = updateValue (props w) (ofZ val)
                      (setAnimation None (thumbX_set target w1))).
  { unfold w2. apply commit_completes. now rewrite E1. }
  split.
  - rewrite E1. unfold currentValue. simpl. auto 10.
  - rewrite E2, E1. unfold updateValue, currentValue. rewrite Hv. simpl.
    destruct (onChange (props w)); simpl; rewrite ?Hv, ?app_nil_r; auto 10.
Qed.

(** The default slider with an observer, tapped on 9. *)
Lemma label_tap_settles_witness :
  let w := mount (observedProps 4 false) (track 800) in
  let w2 := run [LabelTap 9; AnimationComplete] w in
  currentValue w = ofZ 4
  /\ displayValue w2 = ofZ 9 /\ currentValue w2 = ofZ 9
  /\ eqb (thumbX w2) (Fin 700) = true
  /\ calls w2 = [OnChange (ofZ 9)].
Proof.
  intros w w2.
  destruct (label_tap_settles w 9) as (_ & Hd & Hc & Hx & _ & Hcalls);
    [reflexivity | reflexivity |].
  split; [reflexivity|]. split; [exact Hd|]. split; [exact Hc|].
  split; [|exact Hcalls].
  unfold w2, run. simpl fold_left. rewrite Hx. reflexivity.
Defined.

(** X11. A controlled slider whose owner keeps the old [value].  After a
    drag is released and settles, [onChange] has proposed the snapped value,
    the dragging flag is cleared, and the sync effect, run again because the
    flag changed, puts the display and the thumb back on the owner's value.
    After a label tap settles nothing runs the sync effect: the display and
    the thumb stay on the tapped value while the committed value is still
    the owner's. *)
Theorem controlled_change_rejected (w : Widget) (v tapped : Z) :
  value (props w) = Some v ->
  let p := props w in
  let owned := clamp (ofZ v) (ofZ (min p)) (ofZ (max p)) in
  (isDragging w = true ->
   let snapped := snapToNearest p (xToLeverage p (trackRef w) (thumbX w)) in
   let w2 := run [PointerUp; AnimationComplete] w in
   isDragging w2 = false
   /\ displayValue w2 = owned /\ currentValue w2 = owned
   /\ thumbX w2 = leverageToX p (trackRef w) owned
   /\ internalValue w2 = internalValue w
   /\ changes (calls w2)
      = changes (calls w) ++ (if onChange p then [snapped] else []))
  /\ (isDragging w = false -> disabled p = false ->
      let w2 := run [LabelTap tapped; AnimationComplete] w in
      displayValue w2 = ofZ tapped /\ currentValue w2 = owned
      /\ thumbX w2 = leverageToX p (trackRef w) (ofZ tapped)
      /\ internalValue w2 = internalValue w
      /\ changes (calls w2)
         = changes (calls w) ++ (if onChange p then [ofZ tapped] else [])).
Proof.
  intros Hv p owned. subst p. split.
  - intros Hd snapped w2.
    destruct (release_step w Hd) as [Eu _].
    destruct (handlePointerUp_dragging w Hd) as [Eh _]. cbv zeta in Eh.
    fold snapped in Eh.
    set (target := leverageToX (props w) (trackRef w) snapped) in *.
    set (w1 := animateThumbTo target (DragSettle (props w) snapped) w).
    assert (E1 : step PointerUp w = w1) by (rewrite Eu; exact Eh).
    set (d := onComplete (DragSettle (props w) snapped)
                (setAnimation None (thumbX_set target w1))).
    assert (D : dispatch AnimationComplete w1 = d) by reflexivity.
    assert (Pd : props d = props w /\ isDragging d = false /\ trackRef d = trackRef w
                 /\ internalValue d = internalValue w
                 /\ calls d = calls w ++ (if onChange (props w) then [OnChange snapped] else [])
                                      ++ (if onDragEnd (props w) then [OnDragEnd snapped] else [])).
    { unfold d. simpl. unfold updateValue.  rewrite Hv.
      destruct (onChange (props w)), (onDragEnd (props w)); simpl;
        rewrite <- ?app_assoc, ?app_nil_r; auto 10. }
    destruct Pd as (Pp & Pdrag & Pr & Pi & Pc).
    assert (E2 : w2 = syncControlled d).
    { unfold w2, run. simpl fold_left. rewrite E1. unfold step. rewrite D.
      assert (S : sameDeps w1 d = false).
      { unfold sameDeps. rewrite Pdrag. unfold w1. simpl. rewrite Hd.
        apply andb_false_r. }
      now rewrite S. }
    rewrite E2. unfold syncControlled, currentValue. rewrite Pp, Pdrag.
     rewrite Hv. simpl. rewrite Pp, Pr, Pi, Pc.  rewrite Hv.
    fold owned. repeat split; try reflexivity; try assumption.
    destruct (onChange (props w)), (onDragEnd (props w)); simpl;
      rewrite ?changes_app; simpl; rewrite ?app_nil_r; reflexivity.
  - intros Hd Hen w2.
    set (target := leverageToX (props w) (trackRef w) (ofZ tapped)).
    set (w1 := animateThumbTo target (Commit (props w) (ofZ tapped))
                 (setDisplayValue (ofZ tapped) w)).
    assert (E1 : step (LabelTap tapped) w = w1).
    { rewrite labelTap_step. unfold handleLabelTap.  now rewrite Hen. }
    assert (E2 : w2 = updateValue (props w) (ofZ tapped)
                        (setAnimation None (thumbX_set target w1))).
    { unfold w2, run. simpl fold_left. rewrite E1.
      apply commit_completes. reflexivity. }
    rewrite E2. unfold updateValue, currentValue. rewrite Hv.
    destruct (onChange (props w)); simpl; rewrite Hv;
      rewrite ?changes_app; simpl; rewrite ?app_nil_r; auto 10.
Qed.

(** The demo page at 6 with an owner that never updates: a drag released at
    pixel 700 falls back to 6, a tap on 9 stays on 9. *)
Lemma controlled_change_rejected_witness :
  let w := mount (appProps 6) (track 800) in
  let pressed := step (PointerDown 700) w in
  let dragged := run [PointerUp; AnimationComplete] pressed in
  let tapped := run [LabelTap 9; AnimationComplete] w in
  displayValue pressed = ofZ 9
  /\ displayValue dragged = ofZ 6 /\ currentValue dragged = ofZ 6
  /\ changes (calls dragged) = [ofZ 9]
  /\ displayValue tapped = ofZ 9 /\ currentValue tapped = ofZ 6
  /\ changes (calls tapped) = [ofZ 9].
Proof.
  intros w pressed dragged tapped.
  destruct (controlled_change_rejected pressed 6 9) as [Hdrag _];
    [reflexivity|].
  destruct Hdrag as (_ & Hd & Hc & _ & _ & Hch); [reflexivity|].
  destruct (controlled_change_rejected w 6 9) as [_ Htap]; [reflexivity|].
  destruct Htap as (Td & Tc & _ & _ & Tch); [reflexivity | reflexivity |].
  fold dragged in Hd, Hc, Hch. fold tapped in Td, Tc, Tch.
  split; [reflexivity|].
  split; [rewrite Hd; reflexivity|]. split; [rewrite Hc; reflexivity|].
  split; [rewrite Hch; reflexivity|].
  split; [exact Td|]. split; [rewrite Tc; reflexivity|].
  rewrite Tch; reflexivity.
Defined.

(** X12. Resize.  During a drag the resize handler does nothing.  On an
    idle slider it writes the thumb with [leverageToX] of the committed
    value under the geometry then measured, leaving the display and any
    settle in flight alone; and when that geometry has a positive width and
    the committed value is an integer of the range, the thumb so placed
    reads back as the committed value. *)
Theorem resize_resyncs (w : Widget) (rect : option DOMRect) :
  (isDragging w = true -> step Resize w = w)
  /\ (isDragging w = false ->
      let w' := run [Layout rect; Resize] w in
      thumbX w' = leverageToX (props w) rect (currentValue w)
      /\ displayValue w' = displayValue w
      /\ currentValue w' = currentValue w
      /\ animation w' = animation w
      /\ calls w' = calls w
      /\ (positiveWidth rect -> (min (props w) < max (props w))%Z ->
          isIntegerIn (min (props w)) (max (props w)) (currentValue w) = true ->
          eqb (snapToNearest (props w) (xToLeverage (props w) rect (thumbX w')))
              (currentValue w) = true)).
Proof.
  split.
  - intros Hd. apply step_ignored. simpl. unfold handleResize. now rewrite Hd.
  - intros Hd w'.
    assert (E : w' = thumbX_set (leverageToX (props w) rect (currentValue w))
                       (setTrackRef rect w)).
    { unfold w', run. simpl fold_left.
      rewrite (step_stable (Layout rect)) by reflexivity. simpl dispatch.
      assert (R : handleResize (setTrackRef rect w)
                  = thumbX_set (leverageToX (props w) rect (currentValue w))
                      (setTrackRef rect w)).
      { unfold handleResize. simpl. now rewrite Hd. }
      rewrite step_stable; simpl dispatch; rewrite R; reflexivity. }
    rewrite E. simpl. repeat split.
    intros Hpos Hlt Hint.
    destruct (positiveWidth_width rect Hpos) as (l & wd & Hb & Hwd).
    destruct (isIntegerIn_elim _ _ _ Hint) as (q & z & Hq & Hqz & Hz).
    rewrite Hq.
    rewrite (thumb_round_trip (props w) rect wd q z);
      try assumption; [|now rewrite Hb].
    unfold eqb, ofZ. apply Qeq_bool_iff. now symmetry.
Qed.

(** The default slider at 6, its track shrunk from 800 to 320 pixels. *)
Lemma resize_resyncs_witness :
  let w := mount defaultProps (track 800) in
  let w' := run [Layout (track 320); Resize] w in
  eqb (thumbX w) (Fin 400) = true
  /\ eqb (thumbX w') (Fin 160) = true
  /\ eqb (snapToNearest (props w) (xToLeverage (props w) (track 320) (thumbX w')))
         (currentValue w) = true.
Proof.
  intros w w'.
  destruct (resize_resyncs w (track 320)) as [_ H].
  destruct H as (Hx & _ & _ & _ & _ & Hback); [reflexivity|].
  fold w' in Hx, Hback.
  split; [reflexivity|]. split; [rewrite Hx; reflexivity|].
  apply Hback; reflexivity.
Defined.


(** ** Soundness of the numbers held *)

Section WellFormed.

Variables lo hi : Z.
Hypothesis range : (lo < hi)%Z.

Lemma width_is_Fin (ref : option DOMRect) :
  exists wd, width (getTrackBounds ref) = Fin wd.
Proof. destruct ref; simpl; eauto. Qed.

Lemma leverageToX_finite (p : Props) (ref : option DOMRect) (x : number) :
  min p = lo -> max p = hi -> isFinite x = true ->
  isFinite (leverageToX p ref x) = true.
Proof.
  intros Hlo Hhi Hx. destruct x as [q | | |]; try discriminate.
  destruct (width_is_Fin ref) as (wd & Hw).
  rewrite (leverageToX_Fin p ref wd); [reflexivity | assumption | lia].
Qed.

Lemma isIntegerIn_finite (x : number) :
  isIntegerIn lo hi x = true -> isFinite x = true.
Proof. now destruct x. Qed.

Lemma snapped_integer (p : Props) (ref : option DOMRect) (t : number) :
  min p = lo -> max p = hi -> positiveWidth ref -> isFinite t = true ->
  isIntegerIn lo hi (snapToNearest p (xToLeverage p ref t)) = true.
Proof.
  intros Hlo Hhi Hpos Ht. destruct t as [q | | |]; try discriminate.
  destruct (positiveWidth_width ref Hpos) as (l & wd & Hb & Hwd).
  rewrite (xToLeverage_Fin p ref wd); [|now rewrite Hb | lra].
  destruct (snap_nearest_range p
              (inject_Z (min p) + q / wd * (inject_Z (max p) + - inject_Z (min p))))
    as ((z & -> & Hz) & _); [lia|].
  rewrite isIntegerIn_ofZ. apply andb_true_iff; split; apply Z.leb_le; lia.
Qed.

Lemma clamped_integer (v : Z) :
  isIntegerIn lo hi (clamp (ofZ v) (ofZ lo) (ofZ hi)) = true.
Proof.
  rewrite clamp_ofZ, isIntegerIn_ofZ.
  apply andb_true_iff; split; apply Z.leb_le; lia.
Qed.

Lemma currentValue_integer (w : Widget) :
  wellFormed lo hi w -> isIntegerIn lo hi (currentValue w) = true.
Proof.
  intros (Hlo & Hhi & _ & Hi & _). unfold currentValue.
  destruct (value (props w)); [|exact Hi].
  rewrite Hlo, Hhi. apply clamped_integer.
Qed.

(** The targets of the arrow keys. *)
Lemma key_targets_integer (x : number) :
  isIntegerIn lo hi x = true ->
  isIntegerIn lo hi (Math_min (add x (ofZ 1)) (ofZ hi)) = true
  /\ isIntegerIn lo hi (Math_max (sub x (ofZ 1)) (ofZ lo)) = true.
Proof.
  intros Hx. destruct (isIntegerIn_elim _ _ _ Hx) as (q & z & -> & Hq & Hz).
  assert (Bhi : isIntegerIn lo hi (ofZ hi) = true)
    by (rewrite isIntegerIn_ofZ; apply andb_true_iff; split; apply Z.leb_le; lia).
  assert (Blo : isIntegerIn lo hi (ofZ lo) = true)
    by (rewrite isIntegerIn_ofZ; apply andb_true_iff; split; apply Z.leb_le; lia).
  assert (Up : Math_min (add (Fin q) (ofZ 1)) (ofZ hi)
               = if Qle_bool (q + inject_Z 1) (inject_Z hi)
                 then Fin (q + inject_Z 1) else ofZ hi) by reflexivity.
  assert (Down : Math_max (sub (Fin q) (ofZ 1)) (ofZ lo)
                 = if Qle_bool (q + - inject_Z 1) (inject_Z lo)
                   then ofZ lo else Fin (q + - inject_Z 1)) by reflexivity.
  rewrite Up, Down. split.
  - destruct (Qle_bool (q + inject_Z 1) (inject_Z hi)) eqn:E; [|exact Bhi].
    apply Qle_bool_iff in E. rewrite Hq, <- inject_Z_plus, <- Zle_Qle in E.
    apply (isIntegerIn_intro lo hi _ (z + 1)); [|lia].
    now rewrite Hq, inject_Z_plus.
  - destruct (Qle_bool (q + - inject_Z 1) (inject_Z lo)) eqn:E; [exact Blo|].
    apply Qle_bool_false in E.
    rewrite Hq, <- inject_Z_opp, <- inject_Z_plus, <- Zlt_Qlt in E.
    apply (isIntegerIn_intro lo hi _ (z + - 1)); [|lia].
    rewrite Hq, inject_Z_plus. reflexivity.
Qed.

End WellFormed.

Section Preservation.

Variables lo hi : Z.
Hypothesis range : (lo < hi)%Z.

(** The predicate on callback invocations that [wellFormed] demands. *)
Let soundCall (c : Call) : Prop :=
  match callArgument c with
  | Some v => isIntegerIn lo hi v = true
  | None => True
  end.

Lemma wellFormed_invoke (b : bool) (c : Call) (w : Widget) :
  wellFormed lo hi w -> soundCall c -> wellFormed lo hi (invoke b c w).
Proof.
  intros H Hc. destruct b; [|exact H].
  destruct H as (Hlo & Hhi & Hpos & Hi & Hd & Hx & Ha & Hcs).
  unfold wellFormed; simpl. repeat split; auto.
  apply Forall_app. split; [exact Hcs | constructor; [exact Hc | constructor]].
Qed.

Lemma wellFormed_sync (w : Widget) :
  wellFormed lo hi w -> wellFormed lo hi (syncControlled w).
Proof.
  intros H. unfold syncControlled.
  destruct (value (props w)) as [v|]; [|exact H].
  destruct (negb (isDragging w)); [|exact H].
  destruct H as (Hlo & Hhi & Hpos & Hi & Hd & Hx & Ha & Hcs).
  assert (C : isIntegerIn lo hi
                (clamp (ofZ v) (ofZ (min (props w))) (ofZ (max (props w)))) = true)
    by (rewrite Hlo, Hhi; now apply clamped_integer).
  unfold wellFormed; simpl. repeat split; auto.
  apply (leverageToX_finite lo hi range); auto.
  now apply (isIntegerIn_finite lo hi).
Qed.

Lemma wellFormed_updateValue (p : Props) (v : number) (w : Widget) :
  wellFormed lo hi w -> isIntegerIn lo hi v = true ->
  wellFormed lo hi (updateValue p v w).
Proof.
  intros H Hv. unfold updateValue. apply wellFormed_invoke; [|exact Hv].
  destruct (value p); [exact H|].
  destruct H as (Hlo & Hhi & Hpos & Hi & Hd & Hx & Ha & Hcs).
  unfold wellFormed; simpl. repeat split; auto.
Qed.

Lemma wellFormed_dispatch (e : Event) (w : Widget) :
  wellFormed lo hi w -> admissible lo hi e -> wellFormed lo hi (dispatch e w).
Proof.
  intros H Hadm.
  pose proof (currentValue_integer lo hi range w H) as Hcur.
  pose proof H as (Hlo & Hhi & Hpos & Hi & Hd & Hx & Ha & Hcs).
  assert (Hsnap : forall t, isFinite t = true ->
            isIntegerIn lo hi
              (snapToNearest (props w) (xToLeverage (props w) (trackRef w) t))
            = true)
    by (intros; now apply snapped_integer).
  assert (Hlev : forall x, isIntegerIn lo hi x = true ->
            isFinite (leverageToX (props w) (trackRef w) x) = true).
  { intros x Hxi. apply (leverageToX_finite lo hi range); auto.
    now apply (isIntegerIn_finite lo hi). }
  assert (Hrel : forall cx,
            isFinite (clamp (sub (Fin cx) (left (getTrackBounds (trackRef w))))
                        (Fin 0) (width (getTrackBounds (trackRef w)))) = true).
  { intros cx. destruct (positiveWidth_width _ Hpos) as (l & wd & Hb & Hwd).
    rewrite Hb. simpl left. simpl width. unfold sub, neg, add.
    destruct (clamp_Fin (cx + - l) 0 wd) as (r & -> & _); [lra | reflexivity]. }
  destruct e as [cx | cx | | | val | key | | | | | p | rect]; simpl.
  - unfold handlePointerDown. destruct (disabled (props w)); [exact H|].
    specialize (Hrel cx). specialize (Hsnap _ Hrel).
    destruct (onDragStart (props w)); unfold wellFormed; simpl;
      repeat split; auto.
    apply Forall_app. split; [exact Hcs | repeat constructor].
  - unfold handlePointerMove.
    destruct (negb (isDragging w) || disabled (props w)); [exact H|].
    specialize (Hrel cx). specialize (Hsnap _ Hrel).
    unfold wellFormed; simpl; repeat split; auto.
  - unfold handlePointerUp. destruct (negb (isDragging w)); [exact H|].
    specialize (Hsnap _ Hx).
    unfold wellFormed; simpl; repeat split; auto.
  - unfold globalPointerUp, handlePointerUp.
    destruct (isDragging w); simpl; [|exact H].
    specialize (Hsnap _ Hx).
    unfold wellFormed; simpl; repeat split; auto.
  - unfold handleLabelTap. destruct (disabled (props w)); [exact H|].
    simpl in Hadm.
    assert (Hv : isIntegerIn lo hi (ofZ val) = true).
    { rewrite isIntegerIn_ofZ. apply andb_true_iff; split; apply Z.leb_le; lia. }
    unfold wellFormed; simpl; repeat split; auto.
  - unfold handleKeyDown. destruct (disabled (props w)); [exact H|].
    destruct (key_targets_integer lo hi range _ Hcur) as [Kup Kdown].
    assert (Blo : isIntegerIn lo hi (ofZ lo) = true).
    { rewrite isIntegerIn_ofZ. apply andb_true_iff; split; apply Z.leb_le; lia. }
    assert (Bhi : isIntegerIn lo hi (ofZ hi) = true).
    { rewrite isIntegerIn_ofZ. apply andb_true_iff; split; apply Z.leb_le; lia. }
    rewrite Hlo, Hhi.
    repeat match goal with
    | |- context [if ?c then _ else _] => destruct c
    end; try exact H; unfold wellFormed; simpl; repeat split; auto.
  - unfold handleMouseEnter. destruct (negb (disabled (props w))); [|exact H].
    unfold wellFormed; simpl; repeat split; auto.
  - unfold handleMouseLeave. destruct (negb (isDragging w)); [|exact H].
    unfold wellFormed; simpl; repeat split; auto.
  - unfold handleResize. destruct (negb (isDragging w)); [|exact H].
    unfold wellFormed; simpl; repeat split; auto.
  - unfold completeAnimation.
    destruct (animation w) as [[targetX k]|]; [|exact H].
    destruct Ha as [Ht Hk].
    assert (W0 : wellFormed lo hi (setAnimation None (thumbX_set targetX w)))
      by (unfold wellFormed; simpl; repeat split; auto).
    destruct k as [p snapped | p val]; simpl in Hk; simpl onComplete.
    + apply wellFormed_invoke; [|exact Hk].
      pose proof (wellFormed_updateValue p snapped _ W0 Hk)
        as (Ulo & Uhi & Upos & Ui & Ud & Ux & Ua & Ucs).
      unfold wellFormed; simpl; repeat split; auto.
    + now apply wellFormed_updateValue.
  - destruct Hadm as [Plo Phi].
    unfold wellFormed; simpl; repeat split; auto.
  - simpl in Hadm. unfold wellFormed; simpl; repeat split; auto.
Qed.

End Preservation.

Lemma midpoint_integer (p : Props) :
  (min p <= max p)%Z ->
  isIntegerIn (min p) (max p)
    (Math_round (div (add (ofZ (min p)) (ofZ (max p))) (ofZ 2))) = true.
Proof.
  intros Hr. unfold ofZ, add. rewrite div_Fin by discriminate.
  unfold Math_round. rewrite isIntegerIn_ofZ.
  set (m := Qfloor ((inject_Z (min p) + inject_Z (max p)) / inject_Z 2 + (1 # 2))).
  destruct (Qfloor_bounds
              ((inject_Z (min p) + inject_Z (max p)) / inject_Z 2 + (1 # 2)))
    as [Fl Fu].
  fold m in Fl, Fu.
  assert (E : (inject_Z (min p) + inject_Z (max p)) / inject_Z 2
              == (inject_Z (min p) + inject_Z (max p)) * (1 # 2))
    by (change (inject_Z 2) with 2; field).
  rewrite E in Fl, Fu.
  assert (Lo : inject_Z (min p) <= inject_Z (max p)) by (rewrite <- Zle_Qle; lia).
  apply andb_true_iff; split; apply Z.leb_le.
  - apply Zle_of_Qlt_succ. lra.
  - assert (S : (m < max p + 1)%Z); [|lia].
    rewrite Zlt_Qlt, inject_Z_plus. change (inject_Z 1) with 1. lra.
Qed.

Section Reachable.

Variable p : Props.
Variable rect : option DOMRect.
Hypothesis range : (min p < max p)%Z.
Hypothesis measurable : positiveWidth rect.

Lemma wellFormed_mount : wellFormed (min p) (max p) (mount p rect).
Proof.
  unfold mount.
  set (w0 := {| props := p; trackRef := rect;
                internalValue := getInitialValue p;
                isDragging := false; isHovering := false;
                displayValue := match value p with
                                | Some v => clamp (ofZ v) (ofZ (min p)) (ofZ (max p))
                                | None => getInitialValue p
                                end;
                thumbX := ofZ 0; animation := None; calls := [] |}).
  assert (I : isIntegerIn (min p) (max p) (getInitialValue p) = true).
  { unfold getInitialValue.
    destruct (value p); [now apply clamped_integer|].
    destruct (defaultValue p); [now apply clamped_integer|].
    apply midpoint_integer. lia. }
  assert (W0 : wellFormed (min p) (max p) w0).
  { unfold wellFormed, w0; simpl. repeat split; auto.
    destruct (value p); [now apply clamped_integer | exact I]. }
  pose proof (wellFormed_sync _ _ range w0 W0) as W1.
  pose proof (currentValue_integer _ _ range _ W1) as C1.
  destruct (syncControlled_frame w0) as (Fp & Fr & _).
  pose proof W1 as (Hlo & Hhi & Hpos & Hi & Hd & Hx & Ha & Hcs).
  unfold wellFormed; simpl. repeat split; auto.
  apply (leverageToX_finite (min p) (max p) range); auto.
  now apply (isIntegerIn_finite (min p) (max p)).
Qed.

Lemma wellFormed_step (e : Event) (w : Widget) :
  wellFormed (min p) (max p) w -> admissible (min p) (max p) e ->
  wellFormed (min p) (max p) (step e w).
Proof.
  intros H Hadm. unfold step.
  pose proof (wellFormed_dispatch _ _ range e w H Hadm) as D.
  destruct (sameDeps w (dispatch e w)); [exact D|].
  now apply wellFormed_sync.
Qed.

Lemma wellFormed_run (es : list Event) (w : Widget) :
  wellFormed (min p) (max p) w -> Forall (admissible (min p) (max p)) es ->
  wellFormed (min p) (max p) (run es w).
Proof.
  revert w. induction es as [|e es IH]; intros w H Hes; [exact H|].
  inversion Hes as [|? ? He Hrest]; subst.
  unfold run. simpl. apply IH; [|exact Hrest].
  now apply wellFormed_step.
Qed.

End Reachable.

(** X13. The numbers a slider holds stay sound.  Mount a slider with
    [min < max] on a track of positive width (or unmeasured), and let it
    receive any sequence of events in which re-renders keep the range, the
    layout keeps a positive width and the labels tapped are labels of the
    range.  Then in the state reached the displayed value and the committed
    value are integers of [min..max], the thumb position is finite (never
    [NaN] or an infinity), and every argument [onChange] and [onDragEnd]
    have been invoked with is an integer of [min..max]. *)
Theorem numbers_stay_sound (p : Props) (rect : option DOMRect)
    (es : list Event) :
  (min p < max p)%Z -> positiveWidth rect ->
  Forall (admissible (min p) (max p)) es ->
  let w := run es (mount p rect) in
  isIntegerIn (min p) (max p) (displayValue w) = true
  /\ isIntegerIn (min p) (max p) (currentValue w) = true
  /\ isFinite (thumbX w) = true
  /\ (forall v, In (OnChange v) (calls w) \/ In (OnDragEnd v) (calls w) ->
                isIntegerIn (min p) (max p) v = true).
Proof.
  intros Hr Hpos Hes w.
  assert (W : wellFormed (min p) (max p) w).
  { apply wellFormed_run; auto. now apply wellFormed_mount. }
  pose proof (currentValue_integer _ _ Hr _ W) as C.
  destruct W as (_ & _ & _ & _ & Hd & Hx & _ & Hcs).
  split; [exact Hd|]. split; [exact C|]. split; [exact Hx|].
  intros v Hin. rewrite Forall_forall in Hcs.
  destruct Hin as [Hin | Hin]; apply (Hcs _ Hin).
Qed.

(** A press beyond the right end, a move, a resize to a narrower track, an
    End key, a release and two completions on the observed slider. *)
Lemma numbers_stay_sound_witness :
  let w := run [PointerDown 950; PointerMove (-40); Layout (track 320); Resize;
                KeyDown "End"; AnimationComplete; GlobalPointerUp;
                AnimationComplete]
               (mount (observedProps 3 false) (track 800)) in
  isIntegerIn 2 10 (displayValue w) = true
  /\ isIntegerIn 2 10 (currentValue w) = true
  /\ isFinite (thumbX w) = true
  /\ (forall v, In (OnChange v) (calls w) \/ In (OnDragEnd v) (calls w) ->
                isIntegerIn 2 10 v = true).
Proof.
  apply (numbers_stay_sound (observedProps 3 false) (track 800)).
  - reflexivity.
  - reflexivity.
  - repeat constructor.
Defined.

(** ** Rendering *)

(** What the loop of [generateBarHeights] leaves under a key: the keys it
    runs over get the height of their index, the others keep what they
    had. *)
Lemma lookup_generateBarHeights_from (p : Props) (n : nat) (i val : Z)
    (heights : Heights) :
  lookup val (generateBarHeights_from p n i heights)
  = if ((min p + i <=? val) && (val <? min p + i + Z.of_nat n))%Z
    then Some (barHeightAt p (val - min p))
    else lookup val heights.
Proof.
  revert i heights. induction n as [|n IH]; intros i heights.
  - simpl generateBarHeights_from.
    replace ((min p + i <=? val) && (val <? min p + i + Z.of_nat 0))%Z
      with false; [reflexivity|].
    symmetry. apply andb_false_iff.
    destruct (Z.leb_spec (min p + i) val); [right; apply Z.ltb_ge; lia | now left].
  - simpl generateBarHeights_from. rewrite IH. simpl lookup.
    destruct (Z.leb_spec (min p + (i + 1)) val) as [L1 | L1];
      destruct (Z.ltb_spec val (min p + (i + 1) + Z.of_nat n)) as [U1 | U1];
      destruct (Z.leb_spec (min p + i) val) as [L2 | L2];
      destruct (Z.ltb_spec val (min p + i + Z.of_nat (S n))) as [U2 | U2];
      destruct (Z.eqb_spec (min p + i) val) as [Ek | Ek];
      simpl; try reflexivity; try lia.
    subst val. do 2 f_equal. lia.
Qed.

Lemma lookup_generateBarHeights (p : Props) (val : Z) :
  lookup val (generateBarHeights p)
  = if ((min p <=? val) && (val <=? max p))%Z
    then Some (barHeightAt p (val - min p))
    else None.
Proof.
  unfold generateBarHeights. rewrite lookup_generateBarHeights_from. simpl.
  destruct (Z.leb_spec (min p + 0) val); destruct (Z.leb_spec (min p) val);
    destruct (Z.ltb_spec val (min p + 0 + Z.of_nat (Z.to_nat (max p - min p + 1))));
    destruct (Z.leb_spec val (max p)); simpl; try reflexivity; lia.
Qed.

Lemma barHeightAt_Fin (p : Props) (i : Z) :
  (min p < max p)%Z ->
  barHeightAt p i
  = Fin ((12 # 100)
         + inject_Z i / (inject_Z (max p) + - inject_Z (min p)) * (88 # 100)).
Proof.
  intros Hlt. unfold barHeightAt. rewrite steps_Fin. unfold ofZ.
  rewrite div_Fin by now apply steps_nonzero. reflexivity.
Qed.

(** Heights grow with the index and stay between 0.12 and 1 over the
    indices of the range. *)
Lemma barHeightAt_bounds (p : Props) (i j : Z) :
  (min p < max p)%Z -> (0 <= i <= j)%Z -> (j <= max p - min p)%Z ->
  exists a b, barHeightAt p i = Fin a /\ barHeightAt p j = Fin b
              /\ (12 # 100) <= a /\ a <= b /\ b <= 1
              /\ ((i < j)%Z -> a < b)
              /\ (i = 0%Z -> a == (12 # 100))
              /\ (j = (max p - min p)%Z -> b == 1).
Proof.
  intros Hlt Hij Hj.
  rewrite !barHeightAt_Fin by assumption.
  pose proof (steps_positive p Hlt) as Hs.
  pose proof (steps_nonzero p Hlt) as Hnz.
  set (s := inject_Z (max p) + - inject_Z (min p)) in *.
  assert (Es : s == inject_Z (max p - min p)).
  { unfold s, Z.sub. now rewrite inject_Z_plus, inject_Z_opp. }
  assert (Qi : 0 <= inject_Z i) by (change 0 with (inject_Z 0); rewrite <- Zle_Qle; lia).
  assert (Qij : inject_Z i <= inject_Z j) by (rewrite <- Zle_Qle; lia).
  assert (Qj : inject_Z j <= s) by (rewrite Es, <- Zle_Qle; lia).
  assert (Inv : 0 < / s) by now apply Qinv_lt_0_compat.
  assert (Ti : 0 <= inject_Z i / s) by (apply Qle_shift_div_l; lra).
  assert (Tij : inject_Z i / s <= inject_Z j / s).
  { unfold Qdiv. apply Qmult_le_compat_r; lra. }
  assert (Tj : inject_Z j / s <= 1) by (apply Qle_shift_div_r; lra).
  eexists; eexists. split; [reflexivity|]. split; [reflexivity|].
  split; [lra|]. split; [lra|]. split; [lra|].
  split; [|split].
  - intros Hlt'.
    assert (Qlt' : inject_Z i < inject_Z j) by (rewrite <- Zlt_Qlt; lia).
    assert (T : inject_Z i / s < inject_Z j / s).
    { unfold Qdiv. apply Qmult_lt_compat_r; assumption. }
    lra.
  - intros ->. assert (Z0 : inject_Z 0 / s == 0) by (field; exact Hnz). lra.
  - intros ->. rewrite <- Es.
    assert (Z1 : s / s == 1) by (field; exact Hnz). lra.
Qed.

(** X14. [generateBarHeights(min, max)] has a height under exactly the keys
    [min..max] and [undefined] under any other.  For [min < max] the heights
    rise strictly from 0.12 at [min] to 1 at [max].  For [min = max] the one
    height is [NaN] (the loop divides 0 by 0 steps), and for [min > max] the
    object is empty. *)
Theorem generateBarHeights_spec (p : Props) (val val' : Z) :
  (lookup val (generateBarHeights p) <> None <->
   (min p <= val <= max p)%Z)
  /\ ((min p < max p)%Z -> (min p <= val <= val')%Z -> (val' <= max p)%Z ->
      exists a b, lookup val (generateBarHeights p) = Some (Fin a)
                  /\ lookup val' (generateBarHeights p) = Some (Fin b)
                  /\ (12 # 100) <= a /\ a <= b /\ b <= 1
                  /\ ((val < val')%Z -> a < b)
                  /\ (val = min p -> a == (12 # 100))
                  /\ (val' = max p -> b == 1))
  /\ (min p = max p -> lookup (min p) (generateBarHeights p) = Some NaN)
  /\ ((max p < min p)%Z -> generateBarHeights p = []).
Proof.
  split; [|split; [|split]].
  - rewrite lookup_generateBarHeights.
    destruct (Z.leb_spec (min p) val); destruct (Z.leb_spec val (max p));
      simpl; split; intros; try lia; try congruence.
  - intros Hlt Hv Hv'.
    destruct (barHeightAt_bounds p (val - min p) (val' - min p))
      as (a & b & Ea & Eb & H1 & H2 & H3 & H4 & H5 & H6); try lia.
    exists a, b. rewrite !lookup_generateBarHeights.
    replace ((min p <=? val) && (val <=? max p))%Z with true
      by (symmetry; apply andb_true_iff; split; apply Z.leb_le; lia).
    replace ((min p <=? val') && (val' <=? max p))%Z with true
      by (symmetry; apply andb_true_iff; split; apply Z.leb_le; lia).
    rewrite Ea, Eb. repeat split; auto; intros; [apply H4 | apply H5 | apply H6]; lia.
  - intros E. rewrite lookup_generateBarHeights, <- E.
    rewrite Z.leb_refl. simpl. rewrite Z.sub_diag.
    unfold barHeightAt, steps. rewrite <- E. unfold ofZ, sub, neg, add, div.
    assert (Z0 : Qeq_bool (inject_Z (min p) + - inject_Z (min p)) 0 = true)
      by (apply Qeq_bool_iff; ring).
    rewrite Z0. reflexivity.
  - intros Hgt. unfold generateBarHeights.
    replace (Z.to_nat (max p - min p + 1)) with O by lia. reflexivity.
Qed.

(** The heights of the default range at 4 and 9. *)
Lemma generateBarHeights_spec_witness :
  exists a b, lookup 4 (generateBarHeights defaultProps) = Some (Fin a)
              /\ lookup 9 (generateBarHeights defaultProps) = Some (Fin b)
              /\ (12 # 100) <= a /\ a < b /\ b <= 1.
Proof.
  destruct (generateBarHeights_spec defaultProps 4 9) as (_ & H & _).
  destruct H as (a & b & Ea & Eb & H1 & _ & H3 & H4 & _);
    [reflexivity | split; discriminate | discriminate |].
  exists a, b. split; [exact Ea|]. split; [exact Eb|]. split; [exact H1|].
  split; [apply H4; reflexivity | exact H3].
Defined.

Lemma leb_ofZ_integer (val : Z) (q : Q) (d : Z) :
  q == inject_Z d -> leb (ofZ val) (Fin q) = (val <=? d)%Z.
Proof.
  intros Hq. unfold leb, ofZ.
  destruct (Z.leb_spec val d) as [H | H].
  - apply Qle_bool_iff. rewrite Hq, <- Zle_Qle. exact H.
  - destruct (Qle_bool (inject_Z val) q) eqn:E; [|reflexivity].
    apply Qle_bool_iff in E. rewrite Hq, <- Zle_Qle in E. lia.
Qed.

Lemma eqb_ofZ_integer (val : Z) (q : Q) (d : Z) :
  q == inject_Z d -> eqb (ofZ val) (Fin q) = (val =? d)%Z.
Proof.
  intros Hq. unfold eqb, ofZ.
  destruct (Z.eqb_spec val d) as [H | H].
  - apply Qeq_bool_iff. rewrite Hq, H. reflexivity.
  - destruct (Qeq_bool (inject_Z val) q) eqn:E; [|reflexivity].
    apply Qeq_bool_iff in E. rewrite Hq in E.
    unfold Qeq in E; simpl in E. lia.
Qed.

(** The ticks below a bound form a prefix of the ticks. *)
Lemma filter_ticks_prefix (lo d : Z) (n : nat) :
  filter (fun v => (v <=? d)%Z)
         (map (fun i => (lo + i)%Z) (map Z.of_nat (seq 0 n)))
  = map (fun i => (lo + i)%Z)
        (map Z.of_nat (seq 0 (Nat.min n (Z.to_nat (d - lo + 1))))).
Proof.
  induction n as [|n IH]; [reflexivity|].
  rewrite seq_S, !map_app, filter_app, IH. cbn [map filter Nat.add].
  destruct (Z.leb_spec (lo + Z.of_nat n) d) as [H | H].
  - replace (Nat.min (S n) (Z.to_nat (d - lo + 1))) with (S n) by lia.
    replace (Nat.min n (Z.to_nat (d - lo + 1))) with n by lia.
    now rewrite seq_S, !map_app.
  - replace (Nat.min (S n) (Z.to_nat (d - lo + 1)))
      with (Nat.min n (Z.to_nat (d - lo + 1))) by lia.
    now rewrite app_nil_r.
Qed.

Lemma filter_ticks_single (lo d : Z) (n : nat) :
  filter (fun v => (v =? d)%Z)
         (map (fun i => (lo + i)%Z) (map Z.of_nat (seq 0 n)))
  = if ((lo <=? d) && (d <? lo + Z.of_nat n))%Z then [d] else [].
Proof.
  induction n as [|n IH].
  - simpl. destruct (Z.leb_spec lo d); destruct (Z.ltb_spec d (lo + 0));
      simpl; try reflexivity; lia.
  - rewrite seq_S, !map_app, filter_app, IH. cbn [map filter Nat.add].
    destruct (Z.eqb_spec (lo + Z.of_nat n) d);
      destruct (Z.leb_spec lo d);
      destruct (Z.ltb_spec d (lo + Z.of_nat n));
      destruct (Z.ltb_spec d (lo + Z.of_nat (S n)));
      simpl; try reflexivity; try lia.
    now subst d.
Qed.

Lemma filter_ext_in_bool {A : Type} (f g : A -> bool) (l : list A) :
  (forall a, f a = g a) -> filter f l = filter g l.
Proof.
  intros H. induction l as [|a l IH]; simpl; [reflexivity|].
  now rewrite H, IH.
Qed.

(** X15. What is highlighted.  The ticks rendered are [min, min + 1, ..,
    max].  When the display is an integer [d] of the range, the bars and
    baseline ticks selected are exactly the ticks [min..d], in order, and
    the one active label is [d].  When the display is [NaN] nothing is
    selected and no label is active. *)
Theorem ticks_highlighted (w : Widget) (q : Q) (d : Z) :
  let p := props w in
  (forall v, In v (tickValues p) <-> (min p <= v <= max p)%Z)
  /\ (displayValue w = Fin q -> q == inject_Z d -> (min p <= d <= max p)%Z ->
      filter (isSelected w) (tickValues p)
      = map (fun i => (min p + i)%Z) (indices (d - min p + 1))
      /\ filter (isActive w) (tickValues p) = [d])
  /\ (displayValue w = NaN ->
      filter (isSelected w) (tickValues p) = []
      /\ filter (isActive w) (tickValues p) = []).
Proof.
  intros p. unfold tickValues, indices, tickCount.
  split; [|split].
  - intros v. rewrite in_map_iff. split.
    + intros (i & <- & Hi). apply in_map_iff in Hi.
      destruct Hi as (k & <- & Hk). apply in_seq in Hk. lia.
    + intros Hv. exists (v - min p)%Z. split; [lia|].
      apply in_map_iff. exists (Z.to_nat (v - min p)). split; [lia|].
      apply in_seq. lia.
  - intros Hd Hq Hr. split.
    + rewrite (filter_ext_in_bool _ (fun v => (v <=? d)%Z)).
      * rewrite filter_ticks_prefix. do 3 f_equal. lia.
      * intros v. unfold isSelected. rewrite Hd. now apply leb_ofZ_integer.
    + rewrite (filter_ext_in_bool _ (fun v => (v =? d)%Z)).
      * rewrite filter_ticks_single.
        replace ((min p <=? d)
                 && (d <? min p + Z.of_nat (Z.to_nat (max p - min p + 1))))%Z
          with true; [reflexivity|].
        symmetry. apply andb_true_iff. split; [apply Z.leb_le | apply Z.ltb_lt]; lia.
      * intros v. unfold isActive. rewrite Hd. now apply eqb_ofZ_integer.
  - intros Hd. split.
    + rewrite (filter_ext_in_bool _ (fun _ => false)).
      * induction (map _ _); simpl; auto.
      * intros v. unfold isSelected. now rewrite Hd.
    + rewrite (filter_ext_in_bool _ (fun _ => false)).
      * induction (map _ _); simpl; auto.
      * intros v. unfold isActive. now rewrite Hd.
Qed.

(** The default slider displaying 5 during a drag. *)
Lemma ticks_highlighted_witness :
  let w := step (PointerDown 300) (mount defaultProps (track 800)) in
  displayValue w = ofZ 5
  /\ filter (isSelected w) (tickValues (props w)) = [2; 3; 4; 5]%Z
  /\ filter (isActive w) (tickValues (props w)) = [5]%Z.
Proof.
  intro w.
  destruct (ticks_highlighted w (inject_Z 5) 5) as (_ & H & _).
  destruct H as [Hs Ha];
    [reflexivity | reflexivity | split; discriminate |].
  split; [reflexivity|]. split; [exact Hs | exact Ha].
Defined.

(** X16. A tick reads back as its value.  For [min < max], a track of
    positive width and an index [i] of the range, the pixel at which tick
    [i] is drawn, the fraction [xPercent i / 100] of the track width, is
    mapped by [xToLeverage] and [snapToNearest] to the tick's own value
    [min + i]; and [xPercent] is 0 at index 0, 100 at the last index and
    between the two for every index of the range. *)
Theorem tick_reads_back (p : Props) (ref : option DOMRect) (wd : Q) (i : Z) :
  width (getTrackBounds ref) = Fin wd -> 0 < wd -> (min p < max p)%Z ->
  (0 <= i <= max p - min p)%Z ->
  let tickX := mul (div (xPercent p i) (ofZ 100)) (Fin wd) in
  snapToNearest p (xToLeverage p ref tickX) = ofZ (min p + i)
  /\ eqb (xPercent p 0) (ofZ 0) = true
  /\ eqb (xPercent p (max p - min p)) (ofZ 100) = true
  /\ leb (ofZ 0) (xPercent p i) = true
  /\ leb (xPercent p i) (ofZ 100) = true.
Proof.
  intros Hw Hwd Hlt Hi tickX.
  assert (Hwnz : ~ wd == 0) by lra.
  pose proof (steps_nonzero p Hlt) as Hnz.
  pose proof (steps_positive p Hlt) as Hs.
  assert (X : forall k, xPercent p k
                = Fin (inject_Z k / (inject_Z (max p) + - inject_Z (min p))
                       * inject_Z 100)).
  { intros k. unfold xPercent. rewrite steps_Fin. unfold ofZ.
    now rewrite div_Fin by exact Hnz. }
  unfold tickX. rewrite !X. unfold ofZ at 1 3 4 5 6.
  rewrite div_Fin by discriminate. unfold mul, eqb, leb.
  rewrite (xToLeverage_Fin p ref wd) by assumption.
  rewrite snapToNearest_Fin.
  set (s := inject_Z (max p) + - inject_Z (min p)) in *.
  split; [|split; [|split; [|split]]].
  - match goal with
    | |- context [Qfloor ?e] =>
      assert (E : e == inject_Z (min p + i) + (1 # 2))
        by (rewrite inject_Z_plus; change (inject_Z 100) with 100;
            field; split; assumption)
    end.
    rewrite E, Qfloor_half. f_equal. lia.
  - apply Qeq_bool_iff. change (inject_Z 0) with 0. field. exact Hnz.
  - apply Qeq_bool_iff. unfold Z.sub. rewrite inject_Z_plus, inject_Z_opp.
    fold s. change (inject_Z 100) with 100. field. exact Hnz.
  - assert (Q0 : 0 <= inject_Z i)
      by (change 0 with (inject_Z 0); rewrite <- Zle_Qle; lia).
    assert (T0 : 0 <= inject_Z i / s) by (apply Qle_shift_div_l; lra).
    change (inject_Z 100) with 100. change (inject_Z 0) with 0.
    apply Qle_bool_iff; lra.
  - assert (Q0 : 0 <= inject_Z i)
      by (change 0 with (inject_Z 0); rewrite <- Zle_Qle; lia).
    assert (Q1 : inject_Z i <= s).
    { unfold s. rewrite <- inject_Z_opp, <- inject_Z_plus, <- Zle_Qle. lia. }
    assert (T1 : inject_Z i / s <= 1) by (apply Qle_shift_div_r; lra).
    change (inject_Z 100) with 100.
    apply Qle_bool_iff; lra.
Qed.

(** Tick 3 of the default range, the label 5, on an 800 pixel track. *)
Lemma tick_reads_back_witness :
  snapToNearest defaultProps
    (xToLeverage defaultProps (track 800)
       (mul (div (xPercent defaultProps 3) (ofZ 100)) (Fin 800)))
  = ofZ 5
  /\ leb (xPercent defaultProps 3) (ofZ 100) = true.
Proof.
  destruct (tick_reads_back defaultProps (track 800) 800 3)
    as (Ha & _ & _ & _ & Hb);
    [reflexivity | reflexivity | reflexivity | split; discriminate |].
  split; [exact Ha | exact Hb].
Defined.

Lemma spacerT_Fin (lineIndex : Z) :
  (0 <= lineIndex < SPACER_LINES_PER_SEGMENT)%Z ->
  exists t, spacerT lineIndex = Fin t /\ 0 < t /\ t < 1.
Proof.
  intros H. unfold SPACER_LINES_PER_SEGMENT in H.
  assert (C : lineIndex = 0%Z \/ lineIndex = 1%Z \/ lineIndex = 2%Z) by lia.
  destruct C as [-> | [-> | ->]]; eexists; (split; [reflexivity|]);
    split; reflexivity.
Qed.

(** X17. Spacer lines.  With an integer [d] on display, each of the three
    spacer lines of the segment that starts at [min + segIndex] is selected
    exactly when the segment starts below [d].  For [min < max] and a
    segment of the range, the height fraction of the line lies strictly
    between the heights of the two bars it stands between. *)
Theorem spacer_lines (w : Widget) (q : Q) (d segIndex lineIndex : Z) :
  (0 <= lineIndex < SPACER_LINES_PER_SEGMENT)%Z ->
  let p := props w in
  (displayValue w = Fin q -> q == inject_Z d ->
   spacerSelected w segIndex lineIndex = (min p + segIndex <? d)%Z)
  /\ ((min p < max p)%Z -> (0 <= segIndex < max p - min p)%Z ->
      exists a b h,
        lookup (min p + segIndex) (generateBarHeights p) = Some (Fin a)
        /\ lookup (min p + segIndex + 1) (generateBarHeights p) = Some (Fin b)
        /\ spacerHeightFraction p segIndex lineIndex = Some (Fin h)
        /\ a < h /\ h < b).
Proof.
  intros Hline p. destruct (spacerT_Fin lineIndex Hline) as (t & Et & T0 & T1).
  split.
  - intros Hd Hq. unfold spacerSelected. fold p. rewrite Hd, Et.
    unfold ofZ, add, leb.
    destruct (Z.ltb_spec (min p + segIndex) d) as [H | H].
    + apply Qle_bool_iff. rewrite Hq.
      assert (L : inject_Z (min p + segIndex) + 1 <= inject_Z d).
      { change 1 with (inject_Z 1).
        rewrite <- inject_Z_plus, <- Zle_Qle. lia. }
      lra.
    + destruct (Qle_bool (inject_Z (min p + segIndex) + t) q) eqn:E;
        [|reflexivity].
      apply Qle_bool_iff in E. rewrite Hq in E.
      assert (L : inject_Z d <= inject_Z (min p + segIndex))
        by (rewrite <- Zle_Qle; lia).
      lra.
  - intros Hlt Hseg.
    destruct (barHeightAt_bounds p segIndex (segIndex + 1))
      as (a & b & Ea & Eb & _ & _ & _ & Hab & _); try lia.
    specialize (Hab ltac:(lia)).
    assert (La : lookup (min p + segIndex) (generateBarHeights p) = Some (Fin a)).
    { rewrite lookup_generateBarHeights.
      replace ((min p <=? min p + segIndex) && (min p + segIndex <=? max p))%Z
        with true
        by (symmetry; apply andb_true_iff; split; apply Z.leb_le; lia).
      rewrite <- Ea. do 2 f_equal. lia. }
    assert (Lb : lookup (min p + segIndex + 1) (generateBarHeights p)
                 = Some (Fin b)).
    { rewrite lookup_generateBarHeights.
      replace ((min p <=? min p + segIndex + 1)
               && (min p + segIndex + 1 <=? max p))%Z
        with true
        by (symmetry; apply andb_true_iff; split; apply Z.leb_le; lia).
      rewrite <- Eb. do 2 f_equal. lia. }
    exists a, b, (a + (b + - a) * t).
    split; [exact La|]. split; [exact Lb|].
    split; [unfold spacerHeightFraction; rewrite La, Lb, Et; reflexivity|].
    assert (P : 0 < (b + - a) * t) by (apply Qmult_lt_0_compat; lra).
    assert (R : 0 < (b + - a) * (1 - t)) by (apply Qmult_lt_0_compat; lra).
    assert (E : (b + - a) * (1 - t) == (b + - a) - (b + - a) * t) by ring.
    split; lra.
Qed.

(** The default slider displaying 5: the segment 4..5 is lit, 5..6 is not. *)
Lemma spacer_lines_witness :
  let w := step (PointerDown 300) (mount defaultProps (track 800)) in
  spacerSelected w 2 1 = true /\ spacerSelected w 3 1 = false
  /\ exists a b h,
       lookup 5 (generateBarHeights defaultProps) = Some (Fin a)
       /\ lookup 6 (generateBarHeights defaultProps) = Some (Fin b)
       /\ spacerHeightFraction defaultProps 3 1 = Some (Fin h)
       /\ a < h /\ h < b.
Proof.
  intro w.
  destruct (spacer_lines w (inject_Z 5) 5 2 1) as [S2 _];
    [split; [discriminate | reflexivity]|].
  destruct (spacer_lines w (inject_Z 5) 5 3 1) as [S3 H];
    [split; [discriminate | reflexivity]|].
  split; [rewrite S2; reflexivity|]. split; [rewrite S3; reflexivity|].
  apply H; [reflexivity | split; [discriminate | reflexivity]].
Defined.

(** ** Sequences of key presses *)

Lemma run_app (es fs : list Event) (w : Widget) :
  run (es ++ fs) w = run fs (run es w).
Proof. unfold run. apply fold_left_app. Qed.

(** One ArrowRight and its settle, on an enabled uncontrolled slider. *)
Lemma arrow_right_settled (w : Widget) (q : Q) (z : Z) :
  disabled (props w) = false -> value (props w) = None ->
  internalValue w = Fin q -> q == inject_Z z ->
  (min (props w) <= z <= max (props w))%Z ->
  let w2 := run [KeyDown "ArrowRight"; AnimationComplete] w in
  props w2 = props w
  /\ exists q', internalValue w2 = Fin q'
                /\ q' == inject_Z (Z.min (z + 1) (max (props w))).
Proof.
  intros Hen Hv Hi Hq Hz w2.
  set (newVal := Math_min (add (currentValue w) (ofZ 1)) (ofZ (max (props w)))).
  set (target := leverageToX (props w) (trackRef w) newVal).
  assert (E1 : step (KeyDown "ArrowRight") w
               = animateThumbTo target (Commit (props w) newVal)
                   (setDisplayValue newVal w)).
  { rewrite keyDown_step.
    destruct (handleKeyDown_enabled "ArrowRight" w Hen) as (Hup & _).
    apply Hup. now left. }
  assert (E2 : w2 = updateValue (props w) newVal
                      (setAnimation None
                         (thumbX_set target (step (KeyDown "ArrowRight") w)))).
  { unfold w2, run. simpl fold_left. apply commit_completes.
    rewrite E1. reflexivity. }
  assert (N : exists q', newVal = Fin q'
                         /\ q' == inject_Z (Z.min (z + 1) (max (props w)))).
  { unfold newVal, currentValue. rewrite Hv, Hi.
    assert (Up : Math_min (add (Fin q) (ofZ 1)) (ofZ (max (props w)))
                 = if Qle_bool (q + inject_Z 1) (inject_Z (max (props w)))
                   then Fin (q + inject_Z 1) else ofZ (max (props w)))
      by reflexivity.
    rewrite Up.
    destruct (Qle_bool (q + inject_Z 1) (inject_Z (max (props w)))) eqn:E;
      [apply Qle_bool_iff in E | apply Qle_bool_false in E];
      rewrite Hq, <- inject_Z_plus in E.
    - rewrite <- Zle_Qle in E. eexists; split; [reflexivity|].
      rewrite Hq, <- inject_Z_plus. now rewrite Z.min_l by lia.
    - rewrite <- Zlt_Qlt in E. eexists; split; [reflexivity|].
      now rewrite Z.min_r by lia. }
  rewrite E2, E1. unfold updateValue. rewrite Hv.
  split; [now destruct (onChange (props w))|].
  destruct N as (q' & En & Eq). exists q'. split; [|exact Eq].
  rewrite <- En. now destruct (onChange (props w)).
Qed.

(** A second press before the settle completes changes nothing. *)
Lemma arrow_right_again (w : Widget) :
  disabled (props w) = false ->
  step (KeyDown "ArrowRight") (step (KeyDown "ArrowRight") w)
  = step (KeyDown "ArrowRight") w.
Proof.
  intros Hen. rewrite !keyDown_step.
  destruct (handleKeyDown_enabled "ArrowRight" w Hen) as (Hup & _).
  rewrite (Hup (or_introl eq_refl)). cbv zeta.
  match goal with
  | |- handleKeyDown _ ?u = _ =>
    assert (Hen' : disabled (props u) = false) by exact Hen;
    destruct (handleKeyDown_enabled "ArrowRight" u Hen') as (Hup' & _);
    rewrite (Hup' (or_introl eq_refl))
  end.
  reflexivity.
Qed.

(** X18. Repeated ArrowRight on an enabled, uncontrolled slider whose
    committed value is an integer [z] of the range.  When every press is
    left to settle, [n] presses commit [min (z + n) max].  When the presses
    come before the settle completes they do not add up: each is computed
    from the same committed value, so [n >= 1] presses followed by the one
    completion leave the slider exactly as a single press does. *)
Theorem keyboard_repeat (w : Widget) (q : Q) (z : Z) (n : nat) :
  disabled (props w) = false -> value (props w) = None ->
  internalValue w = Fin q -> q == inject_Z z ->
  (min (props w) <= z <= max (props w))%Z ->
  (exists q',
     currentValue
       (run (List.concat (repeat [KeyDown "ArrowRight"; AnimationComplete] n)) w)
     = Fin q'
     /\ q' == inject_Z (Z.min (z + Z.of_nat n) (max (props w))))
  /\ run (repeat (KeyDown "ArrowRight") (S n) ++ [AnimationComplete]) w
     = run [KeyDown "ArrowRight"; AnimationComplete] w.
Proof.
  intros Hen Hv Hi Hq Hz. split.
  - revert w q z Hen Hv Hi Hq Hz.
    induction n as [|n IH]; intros w q z Hen Hv Hi Hq Hz.
    + exists q. split.
      * simpl. unfold run, currentValue. simpl. now rewrite Hv.
      * rewrite Hq. now rewrite Z.add_0_r, Z.min_l by lia.
    + cbn [repeat List.concat]. rewrite run_app.
      destruct (arrow_right_settled w q z Hen Hv Hi Hq Hz) as (Hp & q1 & Hi1 & Hq1).
      set (w2 := run [KeyDown "ArrowRight"; AnimationComplete] w) in *.
      destruct (IH w2 q1 (Z.min (z + 1) (max (props w)))) as (q' & Hc & Hq');
        try (rewrite Hp); auto; try lia.
      exists q'. split; [exact Hc|].
      rewrite Hq', Hp.
      replace (Z.min (z + Z.of_nat (S n)) (max (props w)))
        with (Z.min (Z.min (z + 1) (max (props w)) + Z.of_nat n) (max (props w)))
        by lia.
      reflexivity.
  - assert (R : forall k, run (repeat (KeyDown "ArrowRight") (S k)) w
                          = step (KeyDown "ArrowRight") w).
    { induction k as [|k IHk]; [reflexivity|].
      change (repeat (KeyDown "ArrowRight") (S (S k)))
        with ([KeyDown "ArrowRight"] ++ repeat (KeyDown "ArrowRight") (S k)).
      rewrite run_app.
      change (run [KeyDown "ArrowRight"] w) with (step (KeyDown "ArrowRight") w).
      clear IHk. induction k as [|k IHk].
      - unfold run. simpl. now apply arrow_right_again.
      - change (repeat (KeyDown "ArrowRight") (S (S k)))
          with ([KeyDown "ArrowRight"] ++ repeat (KeyDown "ArrowRight") (S k)).
        rewrite run_app.
        change (run [KeyDown "ArrowRight"] (step (KeyDown "ArrowRight") w))
          with (step (KeyDown "ArrowRight") (step (KeyDown "ArrowRight") w)).
        now rewrite arrow_right_again. }
    rewrite run_app, R. reflexivity.
Qed.

(** From 8 on the range 2..10: three settled presses stop at 10, three
    hurried ones reach 9. *)
Lemma keyboard_repeat_witness :
  let w := mount (observedProps 8 false) (track 800) in
  (exists q',
     currentValue
       (run (List.concat (repeat [KeyDown "ArrowRight"; AnimationComplete] 3)) w)
     = Fin q' /\ q' == inject_Z 10)
  /\ run (repeat (KeyDown "ArrowRight") 3 ++ [AnimationComplete]) w
     = run [KeyDown "ArrowRight"; AnimationComplete] w
  /\ currentValue (run [KeyDown "ArrowRight"; AnimationComplete] w) = ofZ 9.
Proof.
  intro w.
  destruct (keyboard_repeat w (inject_Z 8) 8 3) as (Hs & _);
    [reflexivity | reflexivity | reflexivity | reflexivity
     | split; discriminate |].
  destruct (keyboard_repeat w (inject_Z 8) 8 2) as (_ & Hr);
    [reflexivity | reflexivity | reflexivity | reflexivity
     | split; discriminate |].
  split; [exact Hs|]. split; [exact Hr | reflexivity].
Defined.


(** ** The handle *)

(** X19. The hover flag.  Entering a disabled slider changes nothing;
    entering an enabled one sets the flag and shows the handle.  A mouse
    leave during a drag is ignored, and the handle shows throughout a drag;
    a mouse leave outside a drag clears the flag.  No other event clears
    it: once set, the flag survives everything but such a leave, so after a
    drag that ends with the pointer outside the handle stays shown. *)
Theorem hover_flag (w : Widget) (e : Event) :
  (disabled (props w) = true -> step MouseEnter w = w)
  /\ (disabled (props w) = false ->
      isHovering (step MouseEnter w) = true
      /\ showHandle (step MouseEnter w) = true)
  /\ (isDragging w = true -> step MouseLeave w = w /\ showHandle w = true)
  /\ (isDragging w = false -> isHovering (step MouseLeave w) = false)
  /\ (e <> MouseLeave -> isHovering w = true -> isHovering (step e w) = true).
Proof.
  split; [|split; [|split; [|split]]].
  - intros Hd. apply step_ignored. simpl. unfold handleMouseEnter. now rewrite Hd.
  - intros Hd.
    assert (E0 : handleMouseEnter w = setIsHovering true w)
      by (unfold handleMouseEnter; now rewrite Hd).
    assert (E : step MouseEnter w = setIsHovering true w)
      by (rewrite step_stable; simpl dispatch; rewrite E0; reflexivity).
    rewrite E. unfold showHandle. simpl. split; [reflexivity | apply orb_true_r].
  - intros Hd. split.
    + apply step_ignored. simpl. unfold handleMouseLeave. now rewrite Hd.
    + unfold showHandle. now rewrite Hd.
  - intros Hd.
    assert (E : handleMouseLeave w = setIsHovering false w)
      by (unfold handleMouseLeave; now rewrite Hd).
    rewrite step_stable; simpl dispatch; rewrite E; reflexivity.
  - intros He Hh.
    destruct (step_frame e w) as (_ & _ & _ & _ & Fh & _). rewrite Fh.
    destruct e as [cx | cx | | | val | key | | | | | p | rect]; simpl;
      try congruence.
    + unfold handlePointerDown. destruct (disabled (props w)); [exact Hh|].
      now destruct (onDragStart (props w)).
    + unfold handlePointerMove.
      now destruct (negb (isDragging w) || disabled (props w)).
    + unfold handlePointerUp. now destruct (negb (isDragging w)).
    + unfold globalPointerUp, handlePointerUp. now destruct (isDragging w).
    + unfold handleLabelTap. now destruct (disabled (props w)).
    + unfold handleKeyDown. destruct (disabled (props w)); [exact Hh|].
      match goal with
      | |- context [match ?o with Some _ => _ | None => _ end] => destruct o
      end; exact Hh.
    + unfold handleMouseEnter. now destruct (negb (disabled (props w))).
    + unfold handleResize. now destruct (negb (isDragging w)).
    + unfold completeAnimation. destruct (animation w) as [[t k]|]; [|exact Hh].
      destruct k as [p v | p v]; simpl; unfold updateValue;
        destruct (value p), (onChange p); simpl;
        try destruct (onDragEnd p); exact Hh.
Qed.

(** A drag that starts over the slider and ends outside it. *)
Lemma hover_flag_witness :
  let w := run [MouseEnter; PointerDown 300; MouseLeave]
               (mount defaultProps (track 800)) in
  let w' := run [GlobalPointerUp; AnimationComplete] w in
  isHovering w = true /\ showHandle w = true
  /\ isHovering (step GlobalPointerUp w) = true
  /\ isDragging w' = false /\ showHandle w' = true.
Proof.
  intros w w'.
  destruct (hover_flag w GlobalPointerUp) as (_ & _ & Hdrag & _ & Hkeep).
  destruct Hdrag as [_ Hshow]; [reflexivity|].
  split; [reflexivity|]. split; [exact Hshow|].
  split; [apply Hkeep; [discriminate | reflexivity]|].
  split; reflexivity.
Defined.
